(** * FakeStackOverflow: direct messaging and the Nim game page

    A shallow embedding of
    - [client/src/hooks/useNimGamePage.ts] and the [NimGamePage] component,
    - [client/src/hooks/useGamePage.ts] and the [GamePage] component,
    - [client/src/hooks/useDirectMessage.ts],
    - [server/services/chat.service.ts],
    together with the move protocol of the Nim game as the specification
    describes it (the server-side game code is not part of the sources at
    hand). *)

From Stdlib Require Import ZArith QArith Qcanon Lia Bool Ascii String.
From stdpp Require Import base option list strings gmap.

Local Open Scope string_scope.
Local Open Scope Z_scope.

(* ===================================================================== *)
(** * JavaScript values used by the client                                *)
(* ===================================================================== *)

Module JS.

(** A JavaScript [number]: a rational or [NaN].  The hooks only build
    numbers from a single decimal digit or from the empty string, and a
    move count travels as JSON, so infinities and negative zero are left
    out. *)
Inductive number : Type :=
| Num (q : Q)
| NaN.

Definition of_Z (z : Z) : number := Num (inject_Z z).

(** [a >= b] and [a <= b]: every comparison with [NaN] is false. *)
Definition ge (a b : number) : bool :=
  match a, b with
  | Num x, Num y => Qle_bool y x
  | _, _ => false
  end.

Definition le (a b : number) : bool :=
  match a, b with
  | Num x, Num y => Qle_bool x y
  | _, _ => false
  end.

(** [Number.isInteger]. *)
Definition isInteger (a : number) : bool :=
  match a with
  | Num q => Pos.eqb (Qden (Qred q)) 1
  | NaN => false
  end.

(** [a === b] on numbers: [NaN] equals nothing. *)
Definition eqb (a b : number) : bool :=
  match a, b with
  | Num x, Num y => Qeq_bool x y
  | _, _ => false
  end.

(** An integer in [1, 3]. *)
Definition integer_1_to_3 (a : number) : bool :=
  isInteger a && ge a (of_Z 1) && le a (of_Z 3).

(** The integer a number denotes, when it is one. *)
Definition to_Z (a : number) : option Z :=
  match a with
  | Num q => if Pos.eqb (Qden (Qred q)) 1 then Some (Qnum (Qred q)) else None
  | NaN => None
  end.

(** [s.slice(start)] without an end index: a negative [start] counts
    from the end of the string, and both directions are clamped. *)
Definition slice (s : string) (start : Z) : string :=
  let len := Z.of_nat (String.length s) in
  let from := if start <? 0 then Z.max (len + start) 0 else Z.min start len in
  String.substring (Z.to_nat from) (Z.to_nat (len - from)) s.

(** The last character of a string, if it has one. *)
Fixpoint last_char (s : string) : option ascii :=
  match s with
  | EmptyString => None
  | String c EmptyString => Some c
  | String _ s' => last_char s'
  end.

(** White space that [Number] strips (the ASCII part of it). *)
Definition is_space (c : ascii) : bool :=
  let n := nat_of_ascii c in
  ((9 <=? n) && (n <=? 13))%nat || (n =? 32)%nat.

Definition digit_of (c : ascii) : option Z :=
  let n := nat_of_ascii c in
  if ((48 <=? n) && (n <=? 57))%nat then Some (Z.of_nat n - 48) else None.

(** The character is one of the digits 1, 2, 3. *)
Definition digit_1_to_3 (c : ascii) : bool :=
  match digit_of c with
  | Some d => (1 <=? d) && (d <=? 3)
  | None => false
  end.

Fixpoint drop_space (s : string) : string :=
  match s with
  | String c s' => if is_space c then drop_space s' else s
  | EmptyString => EmptyString
  end.

(** Decimal digits followed by white space only. *)
Fixpoint digits_then_space (acc : Z) (s : string) : option Z :=
  match s with
  | EmptyString => Some acc
  | String c s' =>
      match digit_of c with
      | Some d => digits_then_space (10 * acc + d) s'
      | None => if is_space c then
                  match drop_space s' with
                  | EmptyString => Some acc
                  | _ => None
                  end
                else None
      end
  end.

(** [Number(s)] on a string.  Exact on every string of at most one
    character, which is all the Nim hook converts (the last character of
    the input text and the initial empty move): empty and white space
    give [0], a digit gives its value, anything else [NaN].  On longer
    strings only unsigned decimal integers are recognised. *)
Definition StringToNumber (s : string) : number :=
  match drop_space s with
  | EmptyString => of_Z 0
  | t => match digits_then_space 0 t with
         | Some z => of_Z z
         | None => NaN
         end
  end.

(** [xs.join(sep)]. *)
Definition join (sep : string) (xs : list string) : string :=
  String.concat sep xs.

(** [a || b] on a possibly undefined string: the empty string is falsy. *)
Definition or_else (a : option string) (b : string) : string :=
  match a with
  | Some s => if String.eqb s "" then b else s
  | None => b
  end.

(** ** Text and [trim]

    Text is held as its UTF-8 bytes, as string literals are.  The white
    space [trim] removes is every [WhiteSpace] and [LineTerminator] code
    point of the language: U+0009 to U+000D, U+0020, U+00A0, U+1680,
    U+2000 to U+200A, U+2028, U+2029, U+202F, U+205F, U+3000, U+FEFF. *)

Definition is_byte (n : nat) (c : ascii) : bool := (nat_of_ascii c =? n)%nat.

(** The three bytes of a white space code point above U+07FF. *)
Definition white_space_3 (c1 c2 c3 : ascii) : bool :=
  let n3 := nat_of_ascii c3 in
  is_byte 225 c1 && is_byte 154 c2 && is_byte 128 c3
  || is_byte 226 c1 && is_byte 128 c2
     && ((128 <=? n3)%nat && (n3 <=? 138)%nat
         || is_byte 168 c3 || is_byte 169 c3 || is_byte 175 c3)
  || is_byte 226 c1 && is_byte 129 c2 && is_byte 159 c3
  || is_byte 227 c1 && is_byte 128 c2 && is_byte 128 c3
  || is_byte 239 c1 && is_byte 187 c2 && is_byte 191 c3.

(** A white space code point at the start of the text, and what follows. *)
Definition white_space_first (s : string) : option (string * string) :=
  match s with
  | String c1 r1 =>
      if is_space c1 then Some (String c1 "", r1)
      else
        match r1 with
        | String c2 r2 =>
            if is_byte 194 c1 && is_byte 160 c2
            then Some (String c1 (String c2 ""), r2)
            else
              match r2 with
              | String c3 r3 =>
                  if white_space_3 c1 c2 c3
                  then Some (String c1 (String c2 (String c3 "")), r3)
                  else None
              | EmptyString => None
              end
        | EmptyString => None
        end
  | EmptyString => None
  end.

(** The text cut into white space code points and single other bytes;
    [fuel] bounds the number of pieces. *)
Fixpoint pieces (fuel : nat) (s : string) : list (bool * string) :=
  match fuel with
  | O => []
  | S fuel' =>
      match s with
      | EmptyString => []
      | String c r =>
          match white_space_first s with
          | Some (w, r') => (true, w) :: pieces fuel' r'
          | None => (false, String c "") :: pieces fuel' r
          end
      end
  end.

Fixpoint drop_white_start (ps : list (bool * string)) : list (bool * string) :=
  match ps with
  | (true, _) :: ps' => drop_white_start ps'
  | _ => ps
  end.

Fixpoint drop_white_end (ps : list (bool * string)) : list (bool * string) :=
  match ps with
  | [] => []
  | p :: ps' =>
      match drop_white_end ps' with
      | [] => if fst p then [] else [p]
      | t => p :: t
      end
  end.

Definition join_pieces (ps : list (bool * string)) : string :=
  String.concat "" (snd <$> ps).

(** The text consists of white space only. *)
Definition all_white_space (s : string) : bool :=
  forallb fst (pieces (String.length s) s).

(** [s.trim()] *)
Definition trim (s : string) : string :=
  join_pieces (drop_white_end (drop_white_start (pieces (String.length s) s))).

(** A string used as a condition: the empty string is falsy. *)
Definition truthy (s : string) : bool := negb (String.eqb s "").

(** A possibly undefined string used as a condition. *)
Definition truthy_opt (s : option string) : bool :=
  match s with
  | Some s => truthy s
  | None => false
  end.

(** [String(x)] of a possibly undefined string. *)
Definition String_of (s : option string) : string := default "undefined" s.

End JS.

(* ===================================================================== *)
(** * Shared game types ([client/src/types], as the sources use them)      *)
(* ===================================================================== *)

Inductive GameStatus : Type := WAITING | IN_PROGRESS | OVER.

Global Instance GameStatus_eq_dec : EqDecision GameStatus.
Proof. solve_decision. Defined.

Record NimMove : Type := { numObjects : JS.number }.

(** [GameMove2<NimMove>] *)
Record GameMove : Type := {
  playerID : string;
  move_gameID : string;
  move : NimMove;
}.

Record NimGameState : Type := {
  status : GameStatus;
  player1 : option string;
  player2 : option string;
  moves : list GameMove;
  remainingObjects : Z;
  winners : option (list string);
}.

Record GameInstance : Type := {
  gameID : string;
  gameType : string;
  players : list string;
  state : NimGameState;
}.

Record User : Type := {
  user_id : string;
  username : string;
}.

(* ===================================================================== *)
(** * [useNimGamePage]                                                     *)
(* ===================================================================== *)

Module useNimGamePage.

(** The [move] state, [number | string]. *)
Inductive MoveValue : Type :=
| MStr (s : string)
| MNum (n : JS.number).

(** [useState<number | string>('')] *)
Definition initial : MoveValue := MStr "".

(** [Number(move)] *)
Definition Number (m : MoveValue) : JS.number :=
  match m with
  | MStr s => JS.StringToNumber s
  | MNum n => n
  end.

(** The values the [move] state ever holds. *)
Definition move_ok (m : MoveValue) : Prop :=
  m = initial ∨ m = MNum (JS.of_Z 1) ∨ m = MNum (JS.of_Z 2) ∨ m = MNum (JS.of_Z 3).

(** What [socket.emit('makeMove', ...)] carries. *)
Record MakeMovePayload : Type := {
  payload_gameID : string;
  payload_move : GameMove;
}.

(** What a handler does: state setter calls and socket emissions, in
    the order the handler issues them. *)
Inductive Effect : Type :=
| SetMove (v : MoveValue)
| Emit (event : string) (payload : MakeMovePayload).

Definition handleMakeMove (user : User) (gameState : GameInstance)
    (move : MoveValue) : list Effect :=
  let nimMove :=
    {| playerID := username user;
       move_gameID := gameID gameState;
       move := {| numObjects := Number move |} |} in
  [Emit "makeMove" {| payload_gameID := gameID gameState;
                      payload_move := nimMove |}].

Definition handleInputChange (value : string) : list Effect :=
  let numValue := JS.StringToNumber (JS.slice value (-1)) in
  if String.eqb value "" || (JS.ge numValue (JS.of_Z 1) && JS.le numValue (JS.of_Z 3))
  then [SetMove (if String.eqb value "" then MNum (JS.of_Z 1) else MNum numValue)]
  else [].

(** The [move] state after the setter calls of a handler. *)
Definition apply_effect (m : MoveValue) (e : Effect) : MoveValue :=
  match e with
  | SetMove v => v
  | Emit _ _ => m
  end.

Definition apply_effects (m : MoveValue) (es : list Effect) : MoveValue :=
  foldl apply_effect m es.

(** The [move] state after a sequence of change events of the input. *)
Definition after_inputs (m : MoveValue) (values : list string) : MoveValue :=
  foldl (λ m v, apply_effects m (handleInputChange v)) m values.

End useNimGamePage.

(* ===================================================================== *)
(** * The [NimGamePage] component                                          *)
(* ===================================================================== *)

Module NimGamePage.
Import useNimGamePage.

(** The input and the button shown while the game is in progress. *)
Record MovePanel : Type := {
  input_value : MoveValue;
  submit_disabled : bool;
}.

(** The part of the rendered page that depends on the game. *)
Record View : Type := {
  rules : list string;
  view_player1 : string;
  view_player2 : string;
  current_player_to_move : option string;
  view_remaining : Z;
  view_winner : option string;
  move_panel : option MovePanel;
}.

Definition rules_of_nim : list string :=
  [ "The game starts with a pile of objects.";
    "Players take turns removing objects from the pile.";
    "On their turn, a player must remove 1, 2, or 3 objects from the pile.";
    "The player who removes the last object loses the game." ].

Definition render (user : User) (move : MoveValue) (gameState : GameInstance) : View :=
  {| rules := rules_of_nim;
     view_player1 := JS.or_else (player1 (state gameState)) "Waiting...";
     view_player2 := JS.or_else (player2 (state gameState)) "Waiting...";
     current_player_to_move :=
       players gameState !! (length (moves (state gameState)) mod 2)%nat;
     view_remaining := remainingObjects (state gameState);
     view_winner :=
       if decide (status (state gameState) = OVER)
       then Some (JS.or_else (JS.join ", " <$> winners (state gameState)) "No winner")
       else None;
     move_panel :=
       if decide (status (state gameState) = IN_PROGRESS)
       then Some {| input_value := move;
                    submit_disabled :=
                      negb (bool_decide
                              (players gameState !! (length (moves (state gameState)) mod 2)%nat
                               = Some (username user))) |}
       else None |}.

(** A click on "Submit Move": the button exists only while the game is
    in progress, and a disabled button does not call its handler. *)
Definition click_submit (user : User) (move : MoveValue) (gameState : GameInstance)
    : list Effect :=
  match move_panel (render user move gameState) with
  | Some panel => if submit_disabled panel then []
                  else handleMakeMove user gameState move
  | None => []
  end.

End NimGamePage.

(* ===================================================================== *)
(** * [useGamePage]                                                        *)
(* ===================================================================== *)

Module useGamePage.

Record GameErrorPayload : Type := {
  player : string;
  error : string;
}.

Record GameUpdatePayload : Type := {
  upd_gameState : GameInstance;
}.

(** The three [useState] cells of the hook. *)
Record HookState : Type := {
  st_gameState : option GameInstance;
  st_joinedGameID : option string;
  st_error : option string;
}.

Inductive Effect : Type :=
| SetGameState (g : option GameInstance)
| SetJoinedGameID (i : option string)
| SetError (e : option string).

Definition handleGameUpdate (updatedState : GameUpdatePayload) : list Effect :=
  [SetGameState (Some (upd_gameState updatedState)); SetError None].

Definition handleGameError (user : User) (gameError : GameErrorPayload) : list Effect :=
  if String.eqb (player gameError) (username user)
  then [SetError (Some (error gameError))]
  else [].

Definition apply_effect (s : HookState) (e : Effect) : HookState :=
  match e with
  | SetGameState g =>
      {| st_gameState := g; st_joinedGameID := st_joinedGameID s; st_error := st_error s |}
  | SetJoinedGameID i =>
      {| st_gameState := st_gameState s; st_joinedGameID := i; st_error := st_error s |}
  | SetError e =>
      {| st_gameState := st_gameState s; st_joinedGameID := st_joinedGameID s; st_error := e |}
  end.

Definition apply_effects (s : HookState) (es : list Effect) : HookState :=
  foldl apply_effect s es.

(** What the handlers of the hook do besides setting state: requests to
    the games service, socket emissions, navigation, logging. *)
Inductive Action : Type :=
| Update (e : Effect)
| Call_joinGame (gameID playerID : string)
| Call_leaveGame (gameID playerID : string)
| SocketEmit (event : string) (arg : string)
| Navigate (path : string)
| ConsoleError (label : string).

(** [gameState?.state.status !== 'OVER'] *)
Definition not_over (g : option GameInstance) : bool :=
  match g with
  | Some g => negb (bool_decide (status (state g) = OVER))
  | None => true
  end.

(** [handleLeaveGame]; [leave_ok] tells whether the request
    [leaveGame(joinedGameID, user.username)] succeeds. *)
Definition handleLeaveGame (user : User) (s : HookState) (leave_ok : bool) : list Action :=
  (if JS.truthy_opt (st_joinedGameID s) && not_over (st_gameState s) then
     let joinedGameID := default "" (st_joinedGameID s) in
     Call_leaveGame joinedGameID (username user)
     :: (if leave_ok then [SocketEmit "leaveGame" joinedGameID]
         else [ConsoleError "Error leaving game:"])
   else [])
  ++ [Navigate "/games"].

(** [handleJoinGame(id)]; [joined] is what [joinGame(id, user.username)]
    resolves to, or [None] when the request fails and the handler stops. *)
Definition handleJoinGame (user : User) (id : string) (joined : option GameInstance)
    : list Action :=
  Call_joinGame id (username user)
  :: match joined with
     | Some joinedGame =>
         [Update (SetGameState (Some joinedGame));
          Update (SetJoinedGameID (Some (gameID joinedGame)));
          SocketEmit "joinGame" (gameID joinedGame)]
     | None => []
     end.

(** The state after the setter calls among some actions. *)
Definition apply_actions (s : HookState) (acts : list Action) : HookState :=
  foldl (λ s a, match a with Update e => apply_effect s e | _ => s end) s acts.

(** What arrives on the socket while the listeners are registered. *)
Inductive SocketEvent : Type :=
| gameUpdate (payload : GameUpdatePayload)
| gameError (payload : GameErrorPayload).

Definition on_event (user : User) (s : HookState) (ev : SocketEvent) : HookState :=
  apply_effects s
    match ev with
    | gameUpdate payload => handleGameUpdate payload
    | gameError payload => handleGameError user payload
    end.

Definition on_events (user : User) (s : HookState) (evs : list SocketEvent) : HookState :=
  foldl (on_event user) s evs.

(** The event is an error addressed to this user. *)
Definition error_for (user : User) (ev : SocketEvent) : bool :=
  match ev with
  | gameError payload => String.eqb (player payload) (username user)
  | gameUpdate _ => false
  end.

Definition is_update (ev : SocketEvent) : bool :=
  match ev with
  | gameUpdate _ => true
  | gameError _ => false
  end.

End useGamePage.

(* ===================================================================== *)
(** * The [GamePage] component                                             *)
(* ===================================================================== *)

Module GamePage.
Import useGamePage.

(** What [renderGameComponent] gives. *)
Inductive GameComponent : Type :=
| Nothing
| Nim (view : NimGamePage.View)
| UnknownGameType.

(** The status line: the game's status, or 'Not started'. *)
Inductive StatusLine : Type :=
| NotStarted
| Status (st : GameStatus).

Record View : Type := {
  game_status : StatusLine;
  component : GameComponent;
  error_banner : option string;
}.

Definition renderGameComponent (user : User) (move : useNimGamePage.MoveValue)
    (gameState : option GameInstance) (gameType : string) : GameComponent :=
  match gameState with
  | None => Nothing
  | Some g =>
      if String.eqb gameType "Nim" then Nim (NimGamePage.render user move g)
      else UnknownGameType
  end.

Definition render (user : User) (move : useNimGamePage.MoveValue) (s : HookState) : View :=
  {| game_status :=
       match st_gameState s with
       | Some g => Status (status (state g))
       | None => NotStarted
       end;
     component :=
       match st_gameState s with
       | Some g => renderGameComponent user move (st_gameState s) (gameType g)
       | None => Nothing
       end;
     error_banner :=
       match st_error s with
       | Some e => if JS.truthy e then Some e else None
       | None => None
       end |}.

End GamePage.

(* ===================================================================== *)
(** * The database behind the chat service                                *)
(* ===================================================================== *)

Module Mongo.

(** An identifier in its string form.  The identifiers the collections
    hold and [new Model] generates are ObjectIds; the lookups below are
    those of mongoose on such identifiers.  What mongoose answers for a
    string it cannot cast to an ObjectId (a [CastError], before any round
    trip) is outside the model: a statement that depends on it carries
    [is_ObjectId] as a hypothesis. *)
Definition ObjectId : Type := string.

Inductive MessageType : Type := global | direct.

Record Message : Type := {
  msg_id : option ObjectId;
  msg : string;
  msgFrom : string;
  msgDateTime : Z;
  msg_type : MessageType;
}.

(** A stored chat; the time stamps of the document are left out. *)
Record Chat : Type := {
  chat_id : ObjectId;
  participants : list string;
  messages : list ObjectId;
}.

(** The three collections, the source of fresh identifiers, and the
    faults still to come: every round trip to the database takes the
    head of [db_faults] and rejects with that error when there is one. *)
Record DB : Type := {
  db_users : list User;
  db_chats : list Chat;
  db_messages : list Message;
  db_oid : nat → ObjectId;
  db_next : nat;
  db_faults : list (option string);
}.

(** How an awaited promise settles: rejected with [Error(message)], or
    fulfilled. *)
Inductive Outcome (A : Type) : Type :=
| Throw (message : string)
| Return (a : A).
Global Arguments Throw {A} message.
Global Arguments Return {A} a.

Definition M (A : Type) : Type := DB → Outcome A * DB.

Global Instance M_ret : MRet M := λ A a db, (Return a, db).

Global Instance M_bind : MBind M := λ A B f m db,
  match m db with
  | (Return a, db') => f a db'
  | (Throw e, db') => (Throw e, db')
  end.

Definition throw {A} (message : string) : M A := λ db, (Throw message, db).

(** [try { body } catch (error) { handler }] *)
Definition try_catch {A} (body : M A) (handler : string → M A) : M A := λ db,
  match body db with
  | (Return a, db') => (Return a, db')
  | (Throw e, db') => handler e db'
  end.

Definition gets {A} (f : DB → A) : M A := λ db, (Return (f db), db).

Definition set_faults (fs : list (option string)) (db : DB) : DB :=
  {| db_users := db_users db; db_chats := db_chats db; db_messages := db_messages db;
     db_oid := db_oid db; db_next := db_next db; db_faults := fs |}.

Definition set_chats (cs : list Chat) (db : DB) : DB :=
  {| db_users := db_users db; db_chats := cs; db_messages := db_messages db;
     db_oid := db_oid db; db_next := db_next db; db_faults := db_faults db |}.

Definition set_messages (ms : list Message) (db : DB) : DB :=
  {| db_users := db_users db; db_chats := db_chats db; db_messages := ms;
     db_oid := db_oid db; db_next := db_next db; db_faults := db_faults db |}.

Definition set_next (n : nat) (db : DB) : DB :=
  {| db_users := db_users db; db_chats := db_chats db; db_messages := db_messages db;
     db_oid := db_oid db; db_next := n; db_faults := db_faults db |}.

(** One round trip. *)
Definition round_trip : M unit := λ db,
  match db_faults db with
  | Some e :: fs => (Throw e, set_faults fs db)
  | None :: fs => (Return tt, set_faults fs db)
  | [] => (Return tt, db)
  end.

(** One of the next [n] round trips is going to fail. *)
Definition faults_in (n : nat) (db : DB) : bool :=
  existsb (λ f, match f with Some _ => true | None => false end)
          (take n (db_faults db)).

(** [UserModel.findOne({ username })] *)
Definition UserModel_findOne (name : string) : M (option User) :=
  _ ← round_trip;
  gets (λ db, List.find (λ u, String.eqb (username u) name) (db_users db)).

(** [UserModel.findById(id)] *)
Definition UserModel_findById (id : string) : M (option User) :=
  _ ← round_trip;
  gets (λ db, List.find (λ u, String.eqb (user_id u) id) (db_users db)).

(** [new MessageModel(data)]: a document without [_id] gets a fresh one. *)
Definition new_MessageModel (data : Message) : M Message := λ db,
  match msg_id data with
  | Some _ => (Return data, db)
  | None =>
      (Return {| msg_id := Some (db_oid db (db_next db)); msg := msg data;
                 msgFrom := msgFrom data; msgDateTime := msgDateTime data;
                 msg_type := msg_type data |},
       set_next (S (db_next db)) db)
  end.

(** Some stored message already has this identifier. *)
Definition id_taken (id : option ObjectId) (ms : list Message) : bool :=
  existsb (λ m', bool_decide (msg_id m' = id)) ms.

(** [message.save()] of a new document: an insert, refused when the
    identifier is taken. *)
Definition Message_save (m : Message) : M Message :=
  _ ← round_trip;
  ((λ db,
     if id_taken (msg_id m) (db_messages db)
     then (Throw "E11000 duplicate key error", db)
     else (Return m, set_messages (db_messages db ++ [m]) db)) : M Message).

(** [ChatModel.find(filter).lean()] *)
Definition ChatModel_find (matches : Chat → bool) : M (list Chat) :=
  _ ← round_trip;
  gets (λ db, List.filter matches (db_chats db)).

(** Replace the first chat that matches; the result is the new document. *)
Fixpoint update_first (matches : Chat → bool) (update : Chat → Chat)
    (cs : list Chat) : option Chat * list Chat :=
  match cs with
  | [] => (None, [])
  | c :: cs' =>
      if matches c then (Some (update c), update c :: cs')
      else let '(r, cs'') := update_first matches update cs' in (r, c :: cs'')
  end.

(** [ChatModel.findOneAndUpdate(filter, update, { new: true })] *)
Definition ChatModel_findOneAndUpdate (matches : Chat → bool) (update : Chat → Chat)
    : M (option Chat) :=
  _ ← round_trip;
  ((λ db, let '(r, cs) := update_first matches update (db_chats db) in
          (Return r, set_chats cs db)) : M (option Chat)).

(** [{ participants: { $all: p } }]: every element of [p] occurs in the
    array; an empty [p] matches no document. *)
Definition all_participants (p : list string) (c : Chat) : bool :=
  negb (bool_decide (p = [])) && forallb (λ u, bool_decide (u ∈ participants c)) p.

(** [{ _id: chatId, participants: { $ne: userId } }] *)
Definition id_and_not_participant (chatId userId : string) (c : Chat) : bool :=
  String.eqb (chat_id c) chatId && negb (bool_decide (userId ∈ participants c)).

(** [{ $push: { participants: userId } }] *)
Definition push_participant (userId : string) (c : Chat) : Chat :=
  {| chat_id := chat_id c; participants := participants c ++ [userId];
     messages := messages c |}.




(** [`${error}`] for an [Error] object with this message: its name and
    its message.  The name is "Error" for the errors the service throws
    itself; a failing round trip is rendered the same way. *)
Definition Error_toString (message : string) : string := "Error: " +:+ message.

(** [ChatModel.findById(id)] *)
Definition ChatModel_findById (id : string) : M (option Chat) :=
  _ ← round_trip;
  gets (λ db, List.find (λ c, String.eqb (chat_id c) id) (db_chats db)).

(** [{ $push: { messages: messageId } }] *)
Definition push_message (messageId : string) (c : Chat) : Chat :=
  {| chat_id := chat_id c; participants := participants c;
     messages := messages c ++ [messageId] |}.

(** [ChatModel.findByIdAndUpdate(id, update, { new: true })] *)
Definition ChatModel_findByIdAndUpdate (id : string) (update : Chat → Chat)
    : M (option Chat) :=
  ChatModel_findOneAndUpdate (λ c, String.eqb (chat_id c) id) update.

(** [new ChatModel({ participants, messages })]: the document gets a fresh
    identifier. *)
Definition new_ChatModel (ps : list string) (ms : list ObjectId) : M Chat := λ db,
  (Return {| chat_id := db_oid db (db_next db); participants := ps; messages := ms |},
   set_next (S (db_next db)) db).

(** Some stored chat already has this identifier. *)
Definition chat_id_taken (id : ObjectId) (cs : list Chat) : bool :=
  existsb (λ c', String.eqb (chat_id c') id) cs.

(** [newChat.save()] of a new document: an insert, refused when the
    identifier is taken. *)
Definition Chat_save (c : Chat) : M Chat :=
  _ ← round_trip;
  ((λ db,
     if chat_id_taken (chat_id c) (db_chats db)
     then (Throw "E11000 duplicate key error", db)
     else (Return c, set_chats (db_chats db ++ [c]) db)) : M Chat).

(** [Promise.all(xs.map(f))] with an asynchronous [f]: every call is
    started, in the order of the array, whether or not an earlier one
    fails, and the round trips are served in the order they were started.
    The result is the array of values, or the first failure. *)
Fixpoint Promise_all_map {A B : Type} (f : A → M B) (xs : list A) : M (list B) :=
  match xs with
  | [] => mret []
  | x :: xs' => λ db,
      let '(o, db1) := f x db in
      let '(os, db2) := Promise_all_map f xs' db1 in
      (match o, os with
       | Throw e, _ => Throw e
       | Return _, Throw e => Throw e
       | Return b, Return bs => Return (b :: bs)
       end, db2)
  end.

(** [message._id] of a document built by [new MessageModel]. *)
Definition the_id (m : Message) : ObjectId := default "" (msg_id m).

End Mongo.

(* ===================================================================== *)
(** * [server/services/chat.service.ts]                                   *)
(* ===================================================================== *)

Module ChatService.
Import Mongo.

(** [MessageResponse = Message | { error: string }] *)
Inductive MessageResponse : Type :=
| MessageOk (m : Message)
| MessageError (error : string).

(** [ChatResponse = Chat | { error: string }] *)
Inductive ChatResponse : Type :=
| ChatOk (c : Chat)
| ChatError (error : string).

(** [{ ...messageData, type: 'direct' }] *)
Definition as_direct (messageData : Message) : Message :=
  {| msg_id := msg_id messageData; msg := msg messageData;
     msgFrom := msgFrom messageData; msgDateTime := msgDateTime messageData;
     msg_type := direct |}.

Definition createMessage (messageData : Message) : M MessageResponse :=
  try_catch
    (userExists ← UserModel_findOne (msgFrom messageData);
     match userExists with
     | None => throw "User not found"
     | Some _ =>
         message ← new_MessageModel (as_direct messageData);
         savedMessage ← Message_save message;
         mret (MessageOk savedMessage)
     end)
    (λ _, mret (MessageError "Error creating message: User not found")).

(** [!chats] on the array that [find] resolves to: an array is truthy,
    also when it is empty. *)
Definition not_truthy (chats : list Chat) : bool := false.

Definition getChatsByParticipants (p : list string) : M (list Chat) :=
  try_catch
    (chats ← ChatModel_find (all_participants p);
     if not_truthy chats
     then throw "Chat not found with the provided participants"
     else mret chats)
    (λ _, mret []).

Definition addParticipantToChat (chatId userId : string) : M ChatResponse :=
  try_catch
    (userExists ← UserModel_findById userId;
     match userExists with
     | None => throw "User does not exist."
     | Some _ =>
         updatedChat ← ChatModel_findOneAndUpdate
                         (id_and_not_participant chatId userId)
                         (push_participant userId);
         match updatedChat with
         | None => throw "Chat not found or user already a participant."
         | Some c => mret (ChatOk c)
         end
     end)
    (λ message, mret (ChatError ("Error adding participant to chat: " +:+ message))).

(** [CreateChatPayload]; the messages arrive without a type. *)
Record CreateChatPayload : Type := {
  payload_participants : list string;
  payload_messages : list Message;
}.

(** The callback of [chatPayload.messages.map] in [saveChat]. *)
Definition save_direct (msg : Message) : M ObjectId :=
  message ← new_MessageModel (as_direct msg);
  _ ← Message_save message;
  mret (the_id message).

Definition saveChat (chatPayload : CreateChatPayload) : M ChatResponse :=
  try_catch
    (createdMessages ← Promise_all_map save_direct (payload_messages chatPayload);
     newChat ← new_ChatModel (payload_participants chatPayload) createdMessages;
     savedChat ← Chat_save newChat;
     mret (ChatOk savedChat))
    (λ error, mret (ChatError ("Error saving chat: " +:+ Error_toString error))).

Definition addMessageToChat (chatId messageId : string) : M ChatResponse :=
  try_catch
    (updatedChat ← ChatModel_findByIdAndUpdate chatId (push_message messageId);
     match updatedChat with
     | None => throw "Chat not found"
     | Some c => mret (ChatOk c)
     end)
    (λ error, mret (ChatError ("Error adding message to chat: " +:+ Error_toString error))).

Definition getChat (chatId : string) : M ChatResponse :=
  try_catch
    (chat ← ChatModel_findById chatId;
     match chat with
     | None => throw "Chat not found"
     | Some c => mret (ChatOk c)
     end)
    (λ error, mret (ChatError ("Error retrieving chat: " +:+ Error_toString error))).

(** [s] is the message [m] as a direct message: the same text, sender
    and time, and type ['direct']. *)
Definition direct_copy (m s : Message) : Prop :=
  msg_type s = direct ∧ msg s = msg m ∧ msgFrom s = msgFrom m
  ∧ msgDateTime s = msgDateTime m.

(** Stored chats have pairwise different identifiers. *)
Definition unique_chat_ids (db : DB) : Prop := NoDup (chat_id <$> db_chats db).

End ChatService.

(* ===================================================================== *)
(** * [useDirectMessage]                                                   *)
(* ===================================================================== *)

Module useDirectMessage.

(** A message as the client builds it, without a type. *)
Record Message : Type := {
  msg : string;
  msgFrom : string;
  msgDateTime : Z;
}.

(** A chat as the client holds it. *)
Record Chat : Type := {
  chat_id : option string;
  participants : list string;
  messages : list Message;
}.

(** [ChatUpdatePayload]; the type is whatever string arrives. *)
Record ChatUpdatePayload : Type := {
  chat : Chat;
  type : string;
}.

(** The [useState] cells of the hook. *)
Record HookState : Type := {
  showCreatePanel : bool;
  chatToCreate : string;
  selectedChat : option Chat;
  chats : list Chat;
  newMessage : string;
  error : option string;
}.

(** Setter calls, requests to the chat service and socket emissions. *)
Inductive Action : Type :=
| SetShowCreatePanel (b : bool)
| SetChatToCreate (name : string)
| SetSelectedChat (c : Chat)
| SetChats (cs : list Chat)
| PrependChat (c : Chat)
| SetNewMessage (text : string)
| SetError (e : option string)
| Call_sendMessage (message : Message) (chatID : string)
| Call_getChatById (chatID : string)
| Call_createChat (participants : list string)
| Call_getChatsByUser (name : string)
| SocketEmit (event : string) (arg : string).

Definition handleJoinChat (chatID : option string) : list Action :=
  [SocketEmit "joinChat" (JS.String_of chatID)].

(** [handleSendMessage]; [now] is what [new Date()] gives and [response]
    what [sendMessage] resolves to, or [None] when the request fails and
    the handler stops. *)
Definition handleSendMessage (user : User) (s : HookState) (now : Z)
    (response : option Chat) : list Action :=
  if JS.truthy (JS.trim (newMessage s))
     && JS.truthy_opt (selectedChat s ≫= chat_id)
  then
    let message := {| msg := newMessage s; msgFrom := username user;
                      msgDateTime := now |} in
    Call_sendMessage message (default "" (selectedChat s ≫= chat_id))
    :: match response with
       | Some c => [SetSelectedChat c; SetError None; SetNewMessage ""]
       | None => []
       end
  else [SetError (Some "Message cannot be empty")].

Definition handleChatSelect (chatID : option string) (response : option Chat)
    : list Action :=
  if negb (JS.truthy_opt chatID) then [SetError (Some "Invalid chat ID")]
  else
    Call_getChatById (default "" chatID)
    :: match response with
       | Some c => SetSelectedChat c :: handleJoinChat chatID
       | None => []
       end.

Definition handleUserSelect (selectedUser : User) : list Action :=
  [SetChatToCreate (username selectedUser)].

Definition handleCreateChat (user : User) (s : HookState) (response : option Chat)
    : list Action :=
  if negb (JS.truthy (chatToCreate s))
  then [SetError (Some "Please select a user to chat with")]
  else
    Call_createChat [username user; chatToCreate s]
    :: match response with
       | Some c => SetSelectedChat c :: handleJoinChat (chat_id c)
                   ++ [SetShowCreatePanel false]
       | None => []
       end.

(** [chat.participants.includes(user.username)] *)
Definition includes (name : string) (c : Chat) : bool :=
  bool_decide (name ∈ participants c).

Definition handleChatUpdate (user : User) (chatUpdate : ChatUpdatePayload) : list Action :=
  if String.eqb (type chatUpdate) "created" then
    if includes (username user) (chat chatUpdate)
    then [PrependChat (chat chatUpdate)]
    else []
  else if String.eqb (type chatUpdate) "newMessage" then
    [SetSelectedChat (chat chatUpdate)]
  else [SetError (Some "Invalid chat update type")].

(** [fetchChats]; [userChats] is what [getChatsByUser] resolves to. *)
Definition fetchChats (user : User) (userChats : option (list Chat)) : list Action :=
  Call_getChatsByUser (username user)
  :: match userChats with
     | Some cs => [SetChats cs]
     | None => []
     end.

(** The clean-up of the effect. *)
Definition cleanup (s : HookState) : list Action :=
  [SocketEmit "leaveChat" (JS.String_of (selectedChat s ≫= chat_id))].

Definition apply_action (s : HookState) (a : Action) : HookState :=
  match a with
  | SetShowCreatePanel b =>
      {| showCreatePanel := b; chatToCreate := chatToCreate s;
         selectedChat := selectedChat s; chats := chats s;
         newMessage := newMessage s; error := error s |}
  | SetChatToCreate n =>
      {| showCreatePanel := showCreatePanel s; chatToCreate := n;
         selectedChat := selectedChat s; chats := chats s;
         newMessage := newMessage s; error := error s |}
  | SetSelectedChat c =>
      {| showCreatePanel := showCreatePanel s; chatToCreate := chatToCreate s;
         selectedChat := Some c; chats := chats s;
         newMessage := newMessage s; error := error s |}
  | SetChats cs =>
      {| showCreatePanel := showCreatePanel s; chatToCreate := chatToCreate s;
         selectedChat := selectedChat s; chats := cs;
         newMessage := newMessage s; error := error s |}
  | PrependChat c =>
      {| showCreatePanel := showCreatePanel s; chatToCreate := chatToCreate s;
         selectedChat := selectedChat s; chats := c :: chats s;
         newMessage := newMessage s; error := error s |}
  | SetNewMessage t =>
      {| showCreatePanel := showCreatePanel s; chatToCreate := chatToCreate s;
         selectedChat := selectedChat s; chats := chats s;
         newMessage := t; error := error s |}
  | SetError e =>
      {| showCreatePanel := showCreatePanel s; chatToCreate := chatToCreate s;
         selectedChat := selectedChat s; chats := chats s;
         newMessage := newMessage s; error := e |}
  | _ => s
  end.

Definition apply_actions (s : HookState) (acts : list Action) : HookState :=
  foldl apply_action s acts.

(** The effect depends on [selectedChat?._id]: when a render finds it
    changed, the effect is cleaned up and run again. *)
Definition effect_reruns (s s' : HookState) : bool :=
  negb (bool_decide (selectedChat s ≫= chat_id = selectedChat s' ≫= chat_id)).

(** One [chatUpdate] event: the setter calls of the handler and, when
    they change the identifier of the selected chat, the clean-up of the
    effect and its next run, which starts the request of [fetchChats]. *)
Definition on_chatUpdate (user : User) (s : HookState) (update : ChatUpdatePayload)
    : HookState * list Action :=
  let acts := handleChatUpdate user update in
  let s' := apply_actions s acts in
  (s', (acts ++ if effect_reruns s s'
                then cleanup s ++ [Call_getChatsByUser (username user)]
                else [])%list).

(** What changes the state of the hook while the page is open: a
    [chatUpdate] event on the socket, or the answer to a request of
    [fetchChats], whenever it arrives. *)
Inductive HookEvent : Type :=
| chatUpdate (update : ChatUpdatePayload)
| chatsFetched (userChats : list Chat).

Definition on_hook_event (user : User) (s : HookState) (ev : HookEvent) : HookState :=
  match ev with
  | chatUpdate update => fst (on_chatUpdate user s update)
  | chatsFetched userChats => apply_action s (SetChats userChats)
  end.

Definition on_hook_events (user : User) (s : HookState) (evs : list HookEvent)
    : HookState :=
  foldl (on_hook_event user) s evs.

Definition is_chatUpdate (ev : HookEvent) : bool :=
  match ev with
  | chatUpdate _ => true
  | chatsFetched _ => false
  end.

(** The [chatUpdate] events among some events. *)
Definition updates_of (evs : list HookEvent) : list ChatUpdatePayload :=
  omap (λ ev, match ev with
              | chatUpdate update => Some update
              | chatsFetched _ => None
              end) evs.

(** Every chat of a fetched list includes the user. *)
Definition fetched_for (user : User) (ev : HookEvent) : Prop :=
  match ev with
  | chatUpdate _ => True
  | chatsFetched userChats => Forall (λ c, username user ∈ participants c) userChats
  end.

(** The chats of the [created] events that include the user. *)
Definition created_for (user : User) (updates : list ChatUpdatePayload) : list Chat :=
  chat <$> List.filter
             (λ u, String.eqb (type u) "created" && includes (username user) (chat u))
             updates.

End useDirectMessage.

(* ===================================================================== *)
(** * The move protocol of the Nim game                                   *)
(* ===================================================================== *)

Module NimProtocol.

(** Modelled from the spec: the server-side turn rule is not among the
    sources; the data model gives the player to move as
    [participants[moves.length % 2]]. *)
Definition playerToMove (game : GameInstance) : option string :=
  players game !! (length (moves (state game)) mod 2)%nat.

(** [validate(game, move) -> Ok | Rejected(reason)] *)
Inductive Verdict : Type :=
| Ok
| Rejected (reason : string).

(** Modelled from the spec: the Move Validator is not among the sources.
    These are its four checks, in the order the specification lists
    them, each with the reason it rejects with. *)
Definition checks (game : GameInstance) (m : GameMove) : list (bool * string) :=
  let count := numObjects (move m) in
  [ (bool_decide (status (state game) = IN_PROGRESS), "game not active");
    (bool_decide (playerToMove game = Some (playerID m)), "not your turn");
    (JS.integer_1_to_3 count, "invalid move count");
    (JS.le count (JS.of_Z (remainingObjects (state game))), "insufficient objects") ].

(** The first failing check wins. *)
Fixpoint first_failing (cs : list (bool * string)) : Verdict :=
  match cs with
  | [] => Ok
  | (true, _) :: cs' => first_failing cs'
  | (false, reason) :: _ => Rejected reason
  end.

(** Modelled from the spec: the Move Validator is not among the sources.
    It is a function of the game and the move alone and returns only a
    verdict. *)
Definition validate (game : GameInstance) (m : GameMove) : Verdict :=
  first_failing (checks game m).

(** Modelled from the spec: the Turn Resolver is not among the sources.
    It appends the move, takes its count off the pile and, when the pile
    is empty, ends the game with the mover as the only winner; it is
    called only after validation, when the count is an integer (a count
    that is not one takes nothing off here). *)
Definition resolve (game : GameInstance) (m : GameMove) : GameInstance :=
  let count := default 0 (JS.to_Z (numObjects (move m))) in
  let remaining := remainingObjects (state game) - count in
  {| gameID := gameID game;
     gameType := gameType game;
     players := players game;
     state :=
       {| status := if remaining =? 0 then OVER else IN_PROGRESS;
          player1 := player1 (state game);
          player2 := player2 (state game);
          moves := moves (state game) ++ [m];
          remainingObjects := remaining;
          winners := if remaining =? 0 then Some [playerID m]
                     else winners (state game) |} |}.

(** Modelled from the spec: the Game State Store is an external
    collaborator with [get(gameID) -> Game | NotFound] and
    [put(game) -> Ok | Error]; a put replaces one document or, when the
    store is unavailable, fails without writing. *)
Record Store : Type := {
  docs : gmap string GameInstance;
  available : bool;
}.

Definition get (store : Store) (gameID : string) : option GameInstance :=
  docs store !! gameID.

Definition put (store : Store) (gameID : string) (game : GameInstance) : option Store :=
  if available store
  then Some {| docs := <[gameID := game]> (docs store); available := available store |}
  else None.

(** What the Broadcast Channel is asked to publish. *)
Inductive Event : Type :=
| ErrorEvent (topic : string) (payload : useGamePage.GameErrorPayload)
| UpdateEvent (topic : string) (payload : GameInstance).

Inductive SubmitResult : Type :=
| Committed
| NotFoundError
| ValidationError (reason : string)
| PersistenceError.

(** Modelled from the spec: the Game Session Controller is not among the
    sources.  Load, validate, resolve, persist, broadcast; a rejection is
    published to the mover only, an accepted move to the game's room. *)
Definition submitMove (store : Store) (gameID : string) (m : GameMove)
    : SubmitResult * Store * list Event :=
  match get store gameID with
  | None => (NotFoundError, store, [])
  | Some game =>
      match validate game m with
      | Rejected reason =>
          (ValidationError reason, store,
           [ErrorEvent (playerID m)
              {| useGamePage.player := playerID m; useGamePage.error := reason |}])
      | Ok =>
          let game' := resolve game m in
          match put store gameID game' with
          | None => (PersistenceError, store, [])
          | Some store' => (Committed, store', [UpdateEvent gameID game'])
          end
      end
  end.

End NimProtocol.

(* ===================================================================== *)
(** * Sample data                                                         *)
(* ===================================================================== *)

Module Sample.
Import useNimGamePage.

Definition alice : User := {| user_id := "u1"; username := "alice" |}.
Definition bob : User := {| user_id := "u2"; username := "bob" |}.

Definition nim_move (who : string) (n : Z) : GameMove :=
  {| playerID := who; move_gameID := "g1"; move := {| numObjects := JS.of_Z n |} |}.

(** A game between alice and bob with [pile] objects left after [ms]. *)
Definition game (st : GameStatus) (ms : list GameMove) (pile : Z) : GameInstance :=
  {| gameID := "g1"; gameType := "Nim"; players := ["alice"; "bob"];
     state := {| status := st; player1 := Some "alice"; player2 := Some "bob";
                 moves := ms; remainingObjects := pile; winners := None |} |}.

Definition fresh_game : GameInstance := game IN_PROGRESS [] 5.

(** A game in progress whose identifier is the empty string. *)
Definition unnamed_game : GameInstance :=
  {| gameID := ""; gameType := "Nim"; players := ["alice"; "bob"];
     state := state fresh_game |}.

Definition error_for_bob : useGamePage.GameErrorPayload :=
  {| useGamePage.player := "bob"; useGamePage.error := "not your turn" |}.

Definition chat_ab : Mongo.Chat :=
  {| Mongo.chat_id := "c1"; Mongo.participants := ["u1"; "alice"; "bob"];
     Mongo.messages := [] |}.

Definition chat_b : Mongo.Chat :=
  {| Mongo.chat_id := "c2"; Mongo.participants := ["bob"]; Mongo.messages := [] |}.

Definition hello (t : Mongo.MessageType) (from : string) : Mongo.Message :=
  {| Mongo.msg_id := None; Mongo.msg := "Hello!"; Mongo.msgFrom := from;
     Mongo.msgDateTime := 0; Mongo.msg_type := t |}.

(** A database with two users and two chats, and the faults to come. *)
Definition db (faults : list (option string)) : Mongo.DB :=
  {| Mongo.db_users := [alice; bob];
     Mongo.db_chats := [chat_ab; chat_b];
     Mongo.db_messages := [];
     Mongo.db_oid := λ n, String (ascii_of_nat (97 + n)) "";
     Mongo.db_next := 0;
     Mongo.db_faults := faults |}.

(** A store holding [fresh_game] under its identifier. *)
Definition store (up : bool) : NimProtocol.Store :=
  {| NimProtocol.docs := {[ "g1" := fresh_game ]}; NimProtocol.available := up |}.





(** A chat to create: a participant twice, one who is no user, and two
    messages. *)
Definition new_chat : ChatService.CreateChatPayload :=
  {| ChatService.payload_participants := ["alice"; "carol"; "alice"];
     ChatService.payload_messages := [hello Mongo.global "alice"; hello Mongo.global "bob"] |}.

(** A no-break space, U+00A0, in UTF-8. *)
Definition nbsp : string := String (ascii_of_nat 194) (String (ascii_of_nat 160) "").

Definition dm_chat (id : string) (ps : list string) : useDirectMessage.Chat :=
  {| useDirectMessage.chat_id := Some id; useDirectMessage.participants := ps;
     useDirectMessage.messages := [] |}.

(** The direct message page of alice with one chat selected and [text]
    typed. *)
Definition dm_state (text : string) : useDirectMessage.HookState :=
  {| useDirectMessage.showCreatePanel := false;
     useDirectMessage.chatToCreate := "";
     useDirectMessage.selectedChat := Some (dm_chat "c1" ["alice"; "bob"]);
     useDirectMessage.chats := [dm_chat "c1" ["alice"; "bob"]];
     useDirectMessage.newMessage := text;
     useDirectMessage.error := None |}.

Definition idle : useGamePage.HookState :=
  {| useGamePage.st_gameState := Some fresh_game;
     useGamePage.st_joinedGameID := Some "g1";
     useGamePage.st_error := None |}.

End Sample.

(* ===================================================================== *)
(** * Properties of the client                                            *)
(* ===================================================================== *)

Section JSFacts.

Lemma substring_last (s : string) (n : nat) :
  String.length s = S n →
  ∃ c, JS.last_char s = Some c ∧ String.substring n 1 s = String c "".
Proof.
  revert n. induction s as [|c s IH]; intros n Hlen; simpl in Hlen; [discriminate|].
  destruct s as [|c' s'].
  - exists c. injection Hlen as <-. split; reflexivity.
  - destruct n as [|n]; [discriminate|].
    assert (Hlen' : String.length (String c' s') = S n) by (simpl in Hlen |- *; lia).
    destruct (IH n Hlen') as (d & Hd & Hsub).
    exists d. split; [exact Hd | exact Hsub].
Qed.

(** [value.slice(-1)] is the last character, or empty on the empty string. *)
Lemma slice_last (s : string) :
  JS.slice s (-1) = match JS.last_char s with
                    | Some c => String c ""
                    | None => ""
                    end.
Proof.
  unfold JS.slice.
  destruct s as [|c s]; [reflexivity|].
  set (t := String c s).
  assert (Hlen : String.length t = S (String.length s)) by reflexivity.
  destruct (substring_last t _ Hlen) as (d & Hd & Hsub).
  rewrite Hd, Hlen.
  replace (Z.to_nat _) with (String.length s) by (cbn [Z.ltb Z.compare]; lia).
  replace (Z.to_nat _) with 1%nat by (cbn [Z.ltb Z.compare]; lia).
  exact Hsub.
Qed.

(** So [Number] is only ever applied to at most one character. *)
Lemma slice_last_length (s : string) : (String.length (JS.slice s (-1)) ≤ 1)%nat.
Proof. rewrite slice_last. destruct (JS.last_char s); cbn; lia. Qed.

Lemma last_char_empty (s : string) : JS.last_char s = None → s = "".
Proof.
  induction s as [|c s IH]; [reflexivity|].
  simpl. destruct s; [discriminate|]. intros H. discriminate (IH H).
Qed.

(** [Number] of one character lies in [1, 3] exactly for the digits
    1, 2 and 3, and is then the digit's value. *)
Lemma number_of_char_range (c : ascii) :
  JS.ge (JS.StringToNumber (String c "")) (JS.of_Z 1)
  && JS.le (JS.StringToNumber (String c "")) (JS.of_Z 3) = JS.digit_1_to_3 c.
Proof. destruct c as [[] [] [] [] [] [] [] []]; reflexivity. Qed.

Lemma number_of_char_123 (c : ascii) :
  JS.digit_1_to_3 c = true →
  ∃ d, JS.digit_of c = Some d ∧ 1 ≤ d ≤ 3 ∧ JS.StringToNumber (String c "") = JS.of_Z d.
Proof.
  destruct c as [[] [] [] [] [] [] [] []]; try discriminate; intros _;
    eexists; (split; [vm_compute; reflexivity | split; [lia | reflexivity]]).
Qed.

End JSFacts.

Section NimInput.
Import useNimGamePage.

Lemma handleInputChange_empty : handleInputChange "" = [SetMove (MNum (JS.of_Z 1))].
Proof. reflexivity. Qed.

Lemma handleInputChange_last (value : string) (c : ascii) :
  JS.last_char value = Some c →
  handleInputChange value =
    if JS.digit_1_to_3 c then [SetMove (MNum (JS.StringToNumber (String c "")))] else [].
Proof.
  intros Hc. unfold handleInputChange.
  assert (Hne : String.eqb value "" = false) by (destruct value; [discriminate | reflexivity]).
  rewrite Hne, slice_last, Hc, number_of_char_range. reflexivity.
Qed.

Lemma of_Z_1_to_3 (d : Z) :
  1 ≤ d ≤ 3 → d = 1 ∨ d = 2 ∨ d = 3.
Proof. lia. Qed.

Lemma handleInputChange_step (m : MoveValue) (value : string) :
  let m' := apply_effects m (handleInputChange value) in
  m' = m ∨ m' = MNum (JS.of_Z 1) ∨ m' = MNum (JS.of_Z 2) ∨ m' = MNum (JS.of_Z 3).
Proof.
  cbv zeta. destruct (JS.last_char value) as [c|] eqn:Hc.
  - rewrite (handleInputChange_last _ _ Hc).
    destruct (JS.digit_1_to_3 c) eqn:Hd; [|left; reflexivity].
    destruct (number_of_char_123 c Hd) as (d & _ & Hr & ->).
    right. cbn. destruct (of_Z_1_to_3 d Hr) as [-> | [-> | ->]]; auto.
  - rewrite (last_char_empty _ Hc). right; left. reflexivity.
Qed.

Lemma after_inputs_ok (values : list string) (m : MoveValue) :
  move_ok m → move_ok (after_inputs m values).
Proof.
  revert m. induction values as [|v vs IH]; intros m Hm; [exact Hm|].
  unfold after_inputs. cbn [foldl]. apply IH.
  destruct (handleInputChange_step m v) as [-> | H]; [exact Hm | right; exact H].
Qed.

End NimInput.

Section NimPageClaims.
Import useNimGamePage NimGamePage.

(** C7: after [handleInputChange] the stored move is 1 when the field was
    cleared, the digit when the text ends in 1, 2 or 3, and unchanged when
    the text is not empty and ends in anything else; so it is either
    unchanged or one of 1, 2, 3. *)
Theorem handleInputChange_accepts_1_to_3 (m : MoveValue) (value : string) :
  let m' := apply_effects m (handleInputChange value) in
  (value = "" → m' = MNum (JS.of_Z 1))
  ∧ (∀ c, JS.last_char value = Some c → JS.digit_1_to_3 c = false → m' = m)
  ∧ (∀ c, JS.last_char value = Some c → JS.digit_1_to_3 c = true →
       ∃ d, JS.digit_of c = Some d ∧ 1 ≤ d ≤ 3 ∧ m' = MNum (JS.of_Z d))
  ∧ (m' = m ∨ m' = MNum (JS.of_Z 1) ∨ m' = MNum (JS.of_Z 2) ∨ m' = MNum (JS.of_Z 3)).
Proof.
  cbv zeta. repeat split.
  - intros ->. reflexivity.
  - intros c Hc Hd. rewrite (handleInputChange_last _ _ Hc), Hd. reflexivity.
  - intros c Hc Hd. rewrite (handleInputChange_last _ _ Hc), Hd.
    destruct (number_of_char_123 c Hd) as (d & Hdig & Hr & ->).
    exists d. repeat split; try tauto.
  - apply handleInputChange_step.
Qed.

Lemma handleInputChange_accepts_1_to_3_witness :
  apply_effects (MNum (JS.of_Z 2)) (handleInputChange "") = MNum (JS.of_Z 1)
  ∧ apply_effects (MNum (JS.of_Z 2)) (handleInputChange "24") = MNum (JS.of_Z 2)
  ∧ (∃ d, JS.digit_of "3"%char = Some d ∧ 1 ≤ d ≤ 3
          ∧ apply_effects (MNum (JS.of_Z 2)) (handleInputChange "23") = MNum (JS.of_Z d)).
Proof.
  split; [|split].
  - exact (proj1 (handleInputChange_accepts_1_to_3 (MNum (JS.of_Z 2)) "") eq_refl).
  - exact (proj1 (proj2 (handleInputChange_accepts_1_to_3 (MNum (JS.of_Z 2)) "24"))
             "4"%char eq_refl eq_refl).
  - exact (proj1 (proj2 (proj2 (handleInputChange_accepts_1_to_3 (MNum (JS.of_Z 2)) "23")))
             "3"%char eq_refl eq_refl).
Defined.

(** C5, as stated, fails: a click on "Submit Move" before anything was
    typed sends [numObjects = 0], which is not in 1..3. *)
Lemma submit_before_input_sends_zero :
  click_submit Sample.alice initial Sample.fresh_game =
    [Emit "makeMove"
       {| payload_gameID := "g1";
          payload_move := {| playerID := "alice"; move_gameID := "g1";
                             move := {| numObjects := JS.of_Z 0 |} |} |}]
  ∧ JS.integer_1_to_3 (JS.of_Z 0) = false.
Proof. split; reflexivity. Qed.

(** C5, amended: the [makeMove] event carries the game's identifier and a
    move [{ playerID, gameID, move: { numObjects } }] with the user's name,
    the game's identifier and [numObjects = Number(move)], which is 0 while
    the move state is still the initial empty string and 1, 2 or 3 once an
    input was accepted; a click on the button sends this or nothing. *)
Theorem makeMove_payload (user : User) (gameState : GameInstance) (values : list string) :
  let mv := after_inputs initial values in
  let n := Number mv in
  handleMakeMove user gameState mv =
    [Emit "makeMove"
       {| payload_gameID := gameID gameState;
          payload_move := {| playerID := username user;
                             move_gameID := gameID gameState;
                             move := {| numObjects := n |} |} |}]
  ∧ (n = JS.of_Z 0 ∨ n = JS.of_Z 1 ∨ n = JS.of_Z 2 ∨ n = JS.of_Z 3)
  ∧ (n = JS.of_Z 0 ↔ mv = initial)
  ∧ (JS.integer_1_to_3 n = true ↔ mv ≠ initial)
  ∧ (click_submit user mv gameState = []
     ∨ click_submit user mv gameState = handleMakeMove user gameState mv).
Proof.
  cbv zeta. split; [reflexivity|].
  assert (Hok : move_ok (after_inputs initial values))
    by (apply after_inputs_ok; left; reflexivity).
  split; [|split; [|split]].
  - destruct Hok as [-> | [-> | [-> | ->]]]; cbn; auto.
  - destruct Hok as [-> | [-> | [-> | ->]]]; cbn; split; intros H;
      first [reflexivity | discriminate H].
  - destruct Hok as [-> | [-> | [-> | ->]]]; split; intros H;
      first [discriminate H | reflexivity | (exfalso; apply H; reflexivity)
            | (intros H'; discriminate H')].
  - unfold click_submit.
    destruct (move_panel _) as [panel|]; [|left; reflexivity].
    destruct (submit_disabled panel); [left | right]; reflexivity.
Qed.

Lemma makeMove_payload_witness :
  Number (after_inputs initial ["7"; "2"]) = JS.of_Z 2
  ∧ JS.integer_1_to_3 (Number (after_inputs initial ["7"; "2"])) = true.
Proof.
  pose proof (makeMove_payload Sample.alice Sample.fresh_game ["7"; "2"]) as H.
  cbv zeta in H. destruct H as (_ & _ & _ & Hr & _).
  split; [reflexivity|].
  apply Hr. intros Hi. discriminate Hi.
Defined.

End NimPageClaims.


Section GamePageClaims.
Import useGamePage.

(** C6: [handleGameError] calls [setError] exactly when the payload names
    the current user, then with the payload's error; a client of any other
    user makes no setter call and its state stays as it was. *)
Theorem handleGameError_only_named_player
    (user : User) (gameError : GameErrorPayload) (s : HookState) :
  (player gameError = username user →
     handleGameError user gameError = [SetError (Some (error gameError))]
     ∧ st_error (apply_effects s (handleGameError user gameError)) = Some (error gameError)
     ∧ st_gameState (apply_effects s (handleGameError user gameError)) = st_gameState s
     ∧ st_joinedGameID (apply_effects s (handleGameError user gameError)) = st_joinedGameID s)
  ∧ (player gameError ≠ username user →
     handleGameError user gameError = []
     ∧ apply_effects s (handleGameError user gameError) = s)
  ∧ ((∃ e, SetError e ∈ handleGameError user gameError) ↔ player gameError = username user).
Proof.
  unfold handleGameError.
  destruct (String.eqb_spec (player gameError) (username user)) as [Heq | Hne].
  - split; [|split].
    + intros _. repeat split.
    + intros Hne. contradiction.
    + split; [intros _; exact Heq | intros _; eexists; apply list_elem_of_here].
  - split; [|split].
    + intros Heq. contradiction.
    + intros _. split; reflexivity.
    + split; [intros [e He]; inversion He | intros Heq; contradiction].
Qed.

Lemma handleGameError_only_named_player_witness :
  (handleGameError Sample.bob Sample.error_for_bob = [SetError (Some "not your turn")]
   ∧ st_error (apply_effects Sample.idle (handleGameError Sample.bob Sample.error_for_bob))
     = Some "not your turn")
  ∧ (handleGameError Sample.alice Sample.error_for_bob = []
     ∧ apply_effects Sample.idle (handleGameError Sample.alice Sample.error_for_bob)
       = Sample.idle).
Proof.
  split.
  - destruct (proj1 (handleGameError_only_named_player
                       Sample.bob Sample.error_for_bob Sample.idle) eq_refl)
      as (H1 & H2 & _).
    exact (conj H1 H2).
  - apply (proj1 (proj2 (handleGameError_only_named_player
                           Sample.alice Sample.error_for_bob Sample.idle))).
    intros H. discriminate H.
Defined.

End GamePageClaims.

Section TurnClaims.
Import useNimGamePage NimGamePage NimProtocol.

Lemma even_mod_2 (n : nat) : (n mod 2)%nat = if Nat.even n then 0%nat else 1%nat.
Proof.
  pose proof (Nat.div_mod_eq n 2) as Hn.
  pose proof (Nat.mod_upper_bound n 2) as Hlt.
  assert (He : Nat.even n = Nat.even (n mod 2)).
  { rewrite Hn at 1. rewrite Nat.add_comm. apply Nat.even_add_mul_2. }
  rewrite He. destruct (n mod 2)%nat as [|[|k]]; [reflexivity | reflexivity | lia].
Qed.

(** C2: the page shows [players[moves.length % 2]] as the player to move,
    whatever the status; while the game is in progress it shows the move
    input with a submit button that is enabled exactly for that player,
    and otherwise no input at all.  This player is the specification's
    player to move: with two players the first one after an even number
    of moves and the second one after an odd number.  It depends on the
    players and on the number of moves made and on nothing else in the
    game state, and a click sends the move exactly when the game is in
    progress and it is the user's turn. *)
Theorem current_player_is_parity_of_history
    (user : User) (mv : MoveValue) (gameState : GameInstance) :
  current_player_to_move (render user mv gameState) = playerToMove gameState
  ∧ playerToMove gameState
    = players gameState !! (length (moves (state gameState)) mod 2)%nat
  ∧ (∀ panel, move_panel (render user mv gameState) = Some panel →
       (submit_disabled panel = false ↔ playerToMove gameState = Some (username user)))
  ∧ (∀ other : GameInstance,
       players other = players gameState →
       length (moves (state other)) = length (moves (state gameState)) →
       playerToMove other = playerToMove gameState
       ∧ current_player_to_move (render user mv other)
         = current_player_to_move (render user mv gameState)
       ∧ (status (state other) = status (state gameState) →
          submit_disabled <$> move_panel (render user mv other)
          = submit_disabled <$> move_panel (render user mv gameState)))
  ∧ (click_submit user mv gameState ≠ [] → playerToMove gameState = Some (username user))
  ∧ (status (state gameState) = IN_PROGRESS →
     move_panel (render user mv gameState)
     = Some {| input_value := mv;
               submit_disabled :=
                 negb (bool_decide (playerToMove gameState = Some (username user))) |})
  ∧ (status (state gameState) ≠ IN_PROGRESS →
     move_panel (render user mv gameState) = None)
  ∧ (status (state gameState) = IN_PROGRESS →
     playerToMove gameState = Some (username user) →
     click_submit user mv gameState = handleMakeMove user gameState mv)
  ∧ (status (state gameState) = IN_PROGRESS →
     playerToMove gameState ≠ Some (username user) →
     click_submit user mv gameState = [])
  ∧ (∀ p0 p1, players gameState = [p0; p1] →
       playerToMove gameState
       = Some (if Nat.even (length (moves (state gameState))) then p0 else p1)).
Proof.
  split; [reflexivity|]. split; [reflexivity|].
  split; [|split; [|split; [|split; [|split; [|split; [|split]]]]]].
  - intros panel. unfold render. cbn [move_panel].
    destruct (decide _); [|discriminate].
    intros [= <-]. cbn [submit_disabled]. unfold playerToMove.
    rewrite negb_false_iff, bool_decide_eq_true. reflexivity.
  - intros other Hp Hl. unfold playerToMove, render. cbn [current_player_to_move move_panel].
    rewrite Hp, Hl. repeat split.
    intros ->. reflexivity.
  - unfold click_submit, render. cbn [move_panel].
    destruct (decide _); [|intros H; contradiction].
    cbn [submit_disabled]. unfold playerToMove.
    destruct (bool_decide _) eqn:Hb; cbn [negb]; [|intros H; contradiction].
    intros _. apply bool_decide_eq_true in Hb. exact Hb.
  - intros Hst. unfold render. cbn [move_panel].
    destruct (decide _); [reflexivity | contradiction].
  - intros Hst. unfold render. cbn [move_panel].
    destruct (decide _); [contradiction | reflexivity].
  - intros Hst Hturn. unfold click_submit, render. cbn [move_panel].
    destruct (decide _); [|contradiction]. cbn [submit_disabled].
    unfold playerToMove in Hturn. rewrite (bool_decide_eq_true_2 _ Hturn). reflexivity.
  - intros Hst Hturn. unfold click_submit, render. cbn [move_panel].
    destruct (decide _); [|contradiction]. cbn [submit_disabled].
    unfold playerToMove in Hturn. rewrite (bool_decide_eq_false_2 _ Hturn). reflexivity.
  - intros p0 p1 Hp. unfold playerToMove. rewrite Hp, even_mod_2.
    destruct (Nat.even _); reflexivity.
Qed.

Lemma current_player_is_parity_of_history_witness :
  playerToMove (Sample.game IN_PROGRESS [Sample.nim_move "alice" 2] 3) = Some "bob"
  ∧ playerToMove (Sample.game IN_PROGRESS [Sample.nim_move "bob" 1] 1)
    = playerToMove (Sample.game IN_PROGRESS [Sample.nim_move "alice" 2] 3)
  ∧ move_panel (render Sample.alice initial Sample.fresh_game)
    = Some {| input_value := initial; submit_disabled := false |}
  ∧ move_panel (render Sample.bob initial Sample.fresh_game)
    = Some {| input_value := initial; submit_disabled := true |}
  ∧ click_submit Sample.alice initial Sample.fresh_game
    = handleMakeMove Sample.alice Sample.fresh_game initial
  ∧ click_submit Sample.bob initial Sample.fresh_game = []
  ∧ move_panel (render Sample.alice initial (Sample.game OVER [] 0)) = None.
Proof.
  pose proof (current_player_is_parity_of_history Sample.bob initial
                (Sample.game IN_PROGRESS [Sample.nim_move "alice" 2] 3))
    as (_ & _ & _ & Hpure & Hclick & _).
  pose proof (current_player_is_parity_of_history Sample.alice initial Sample.fresh_game)
    as (_ & _ & _ & _ & _ & Hpanel & _ & Hsend & _).
  pose proof (current_player_is_parity_of_history Sample.bob initial Sample.fresh_game)
    as (_ & _ & _ & _ & _ & Hpanel' & _ & _ & Hnot & _).
  pose proof (current_player_is_parity_of_history Sample.alice initial (Sample.game OVER [] 0))
    as (_ & _ & _ & _ & _ & _ & Hnone & _).
  split; [apply Hclick; intros H; discriminate H|].
  split; [apply (Hpure (Sample.game IN_PROGRESS [Sample.nim_move "bob" 1] 1)); reflexivity|].
  split; [exact (Hpanel eq_refl)|].
  split; [exact (Hpanel' eq_refl)|].
  split; [exact (Hsend eq_refl eq_refl)|].
  split; [apply Hnot; [reflexivity | discriminate]|].
  apply Hnone. discriminate.
Defined.

End TurnClaims.

(* ===================================================================== *)
(** * Properties of the chat service                                      *)
(* ===================================================================== *)

Section ChatServiceFacts.
Import Mongo ChatService.

Lemma round_trip_cases (db : DB) :
  (∃ e fs, db_faults db = Some e :: fs ∧ round_trip db = (Throw e, set_faults fs db))
  ∨ (∃ db1, round_trip db = (Return tt, db1)
            ∧ db_users db1 = db_users db ∧ db_chats db1 = db_chats db
            ∧ db_messages db1 = db_messages db ∧ db_oid db1 = db_oid db
            ∧ db_next db1 = db_next db
            ∧ match db_faults db with
              | Some _ :: _ => False
              | None :: fs => db_faults db1 = fs
              | [] => db_faults db1 = []
              end).
Proof.
  unfold round_trip. destruct (db_faults db) as [|[e|] fs] eqn:Hf.
  - right. exists db. rewrite Hf. repeat split; reflexivity.
  - left. exists e, fs. split; reflexivity.
  - right. eexists. repeat split; reflexivity.
Qed.

Lemma find_user_none (f : User → bool) (us : list User) :
  (∀ u, u ∈ us → f u = false) → List.find f us = None.
Proof.
  induction us as [|u us IH]; intros H; [reflexivity|].
  simpl. rewrite (H u (list_elem_of_here _ _)).
  apply IH. intros u' Hu'. apply H. apply list_elem_of_further. exact Hu'.
Qed.

Lemma find_user_some (f : User → bool) (us : list User) (u : User) :
  List.find f us = Some u → u ∈ us ∧ f u = true.
Proof.
  intros H. apply List.find_some in H as [Hin Hf].
  split; [apply list_elem_of_In; exact Hin | exact Hf].
Qed.

Lemma find_user_is_some (f : User → bool) (us : list User) (u : User) :
  u ∈ us → f u = true → ∃ u', List.find f us = Some u'.
Proof.
  intros Hin Hf. destruct (List.find f us) as [u'|] eqn:E; [eauto|].
  apply list_elem_of_In in Hin.
  pose proof (List.find_none _ _ E u Hin) as Hn. congruence.
Qed.

End ChatServiceFacts.

Section ChatServiceClaims.
Import Mongo ChatService.

Ltac run_service :=
  unfold createMessage, getChatsByParticipants, addParticipantToChat, try_catch,
    UserModel_findOne, UserModel_findById, new_MessageModel, Message_save,
    ChatModel_find, ChatModel_findOneAndUpdate, faults_in, not_truthy,
    mbind, M_bind, mret, M_ret, gets, throw, round_trip.

(** Membership in a list that is written out. *)
Ltac in_list := repeat first [apply list_elem_of_here | apply list_elem_of_further].

(** Case analysis on every test the service makes, outermost first. *)
Ltac settle :=
  repeat match goal with
         | |- context [match ?x with _ => _ end] =>
             lazymatch x with
             | context [match _ with _ => _ end] => fail
             | _ => destruct x eqn:?; cbn in *
             end
         end.

Lemma update_first_spec (matches : Chat → bool) (update : Chat → Chat) (cs : list Chat) :
  match update_first matches update cs with
  | (None, cs') => cs' = cs ∧ ∀ c, c ∈ cs → matches c = false
  | (Some c', cs') =>
      ∃ pre c post, cs = (pre ++ c :: post)%list ∧ cs' = (pre ++ c' :: post)%list
                    ∧ c' = update c ∧ matches c = true
                    ∧ ∀ x, x ∈ pre → matches x = false
  end.
Proof.
  induction cs as [|c cs IH]; cbn.
  - split; [reflexivity | intros c Hc; inversion Hc].
  - destruct (matches c) eqn:Hm.
    + exists [], c, cs.
      split; [reflexivity|]. split; [reflexivity|]. split; [reflexivity|].
      split; [exact Hm|]. intros x Hx. inversion Hx.
    + destruct (update_first matches update cs) as [[c'|] cs'].
      * destruct IH as (pre & c0 & post & -> & -> & -> & Hm0 & Hpre).
        exists (c :: pre), c0, post.
        split; [reflexivity|]. split; [reflexivity|]. split; [reflexivity|].
        split; [exact Hm0|].
        intros x Hx. apply elem_of_cons in Hx as [-> | Hx]; [exact Hm | exact (Hpre x Hx)].
      * destruct IH as [-> Hall]. split; [reflexivity|].
        intros x Hx. apply elem_of_cons in Hx as [-> | Hx]; [exact Hm | exact (Hall x Hx)].
Qed.

Lemma id_taken_true (id : option ObjectId) (ms : list Message) :
  id_taken id ms = true ↔ ∃ m, m ∈ ms ∧ msg_id m = id.
Proof.
  unfold id_taken. rewrite existsb_exists. split.
  - intros (m & Hin & Hb). exists m. split; [apply list_elem_of_In; exact Hin|].
    apply bool_decide_eq_true in Hb. exact Hb.
  - intros (m & Hin & Hb). exists m. split; [apply list_elem_of_In; exact Hin|].
    apply bool_decide_eq_true. exact Hb.
Qed.

(** C10: [createMessage] never rejects.  Every failure gives exactly
    [{ error: 'Error creating message: User not found' }] and stores
    nothing: a missing sender, a failing lookup, a failing save, an
    identifier that is taken.  A saved message has type ['direct'] whatever
    type the input had, and is the one message added. *)
Theorem createMessage_collapses_failures (messageData : Message) (db : DB) :
  ∃ r db',
    createMessage messageData db = (Return r, db')
    ∧ db_users db' = db_users db ∧ db_chats db' = db_chats db
    ∧ match r with
      | MessageError e =>
          e = "Error creating message: User not found"
          ∧ db_messages db' = db_messages db
      | MessageOk m =>
          msg_type m = direct
          ∧ msg m = msg messageData ∧ msgFrom m = msgFrom messageData
          ∧ msgDateTime m = msgDateTime messageData
          ∧ db_messages db' = (db_messages db ++ [m])%list
      end
    ∧ ((∀ u, u ∈ db_users db → username u ≠ msgFrom messageData) →
       r = MessageError "Error creating message: User not found")
    ∧ (faults_in 2 db = true →
       r = MessageError "Error creating message: User not found")
    ∧ (is_Some (msg_id messageData) →
       id_taken (msg_id messageData) (db_messages db) = true →
       r = MessageError "Error creating message: User not found")
    ∧ (faults_in 2 db = false →
       (∃ u, u ∈ db_users db ∧ username u = msgFrom messageData) →
       id_taken (msg_id messageData) (db_messages db) = false →
       id_taken (Some (db_oid db (db_next db))) (db_messages db) = false →
       ∃ m, r = MessageOk m).
Proof.
  run_service. unfold id_taken.
  destruct db as [us cs ms oid nx fl], messageData as [mid mm mf mt ty]. cbn.
  settle.
  all: eexists _, _; (split; [reflexivity|]); cbn.
  all: repeat match goal with |- _ ∧ _ => split end; try reflexivity.
  all: try (intros; discriminate).
  all: try (intros; eexists; reflexivity).
  all: try (intros [? ?]; congruence).
  all: try congruence.
  all: try match goal with
           | H : List.find _ _ = Some _ |- (∀ u, u ∈ _ → _) → _ =>
               let Hno := fresh in
               intros Hno; apply find_user_some in H as [Hin Heq];
               apply String.eqb_eq in Heq; exfalso; exact (Hno _ Hin Heq)
           | H : List.find _ _ = None |- _ → (∃ u, _) → _ =>
               let Hu := fresh in
               intros _ (u & Hin & Heq);
               apply list_elem_of_In in Hin;
               pose proof (List.find_none _ _ H u Hin) as Hu; cbn in Hu;
               rewrite Heq, String.eqb_refl in Hu; discriminate Hu
           end.
Qed.

Lemma createMessage_collapses_failures_witness :
  (∃ m db', createMessage (Sample.hello global "alice") (Sample.db [])
            = (Return (MessageOk m), db') ∧ msg_type m = direct)
  ∧ (∃ db', createMessage (Sample.hello direct "carol") (Sample.db [])
            = (Return (MessageError "Error creating message: User not found"), db'))
  ∧ (∃ db', createMessage (Sample.hello direct "alice") (Sample.db [None; Some "timeout"])
            = (Return (MessageError "Error creating message: User not found"), db')).
Proof.
  split; [|split].
  - destruct (createMessage_collapses_failures (Sample.hello global "alice") (Sample.db []))
      as (r & db' & Heq & _ & _ & Hr & _ & _ & _ & Hok).
    destruct Hok as [m ->]; [reflexivity | | reflexivity | reflexivity |].
    + exists Sample.alice. split; [apply list_elem_of_here | reflexivity].
    + exists m, db'. split; [exact Heq | exact (proj1 Hr)].
  - destruct (createMessage_collapses_failures (Sample.hello direct "carol") (Sample.db []))
      as (r & db' & Heq & _ & _ & _ & Hno & _).
    exists db'. rewrite Heq, Hno; [reflexivity|].
    intros u Hu. repeat (apply elem_of_cons in Hu as [-> | Hu]; [discriminate|]).
    inversion Hu.
  - destruct (createMessage_collapses_failures (Sample.hello direct "alice")
                (Sample.db [None; Some "timeout"]))
      as (r & db' & Heq & _ & _ & _ & _ & Hfault & _).
    exists db'. rewrite Heq, Hfault; reflexivity.
Defined.

(** C9: [getChatsByParticipants] always resolves to an array, never to an
    error value.  Every chat in it is a stored chat whose participants
    include all the given usernames, stored state is untouched, and a
    failing lookup gives the empty array. *)
Theorem getChatsByParticipants_never_errors (p : list string) (db : DB) :
  ∃ chats db',
    getChatsByParticipants p db = (Return chats, db')
    ∧ db_users db' = db_users db ∧ db_chats db' = db_chats db
    ∧ db_messages db' = db_messages db
    ∧ (∀ c, c ∈ chats → c ∈ db_chats db ∧ ∀ u, u ∈ p → u ∈ participants c)
    ∧ (faults_in 1 db = true → chats = [])
    ∧ (faults_in 1 db = false →
       ∀ c, c ∈ db_chats db → p ≠ [] → (∀ u, u ∈ p → u ∈ participants c) → c ∈ chats).
Proof.
  assert (Hsound : ∀ c, c ∈ List.filter (all_participants p) (db_chats db) →
                        c ∈ db_chats db ∧ ∀ u, u ∈ p → u ∈ participants c).
  { intros c Hc. apply list_elem_of_In, List.filter_In in Hc as [Hin Hall].
    split; [apply list_elem_of_In; exact Hin|].
    unfold all_participants in Hall. apply andb_true_iff in Hall as [_ Hall].
    rewrite forallb_forall in Hall. intros u Hu.
    apply list_elem_of_In in Hu. apply Hall in Hu.
    apply bool_decide_eq_true in Hu. exact Hu. }
  assert (Hcomplete : ∀ c, c ∈ db_chats db → p ≠ [] → (∀ u, u ∈ p → u ∈ participants c) →
                           c ∈ List.filter (all_participants p) (db_chats db)).
  { intros c Hin Hp Hall. apply list_elem_of_In, List.filter_In.
    split; [apply list_elem_of_In; exact Hin|].
    unfold all_participants. apply andb_true_iff. split.
    - apply negb_true_iff, bool_decide_eq_false. exact Hp.
    - apply forallb_forall. intros u Hu. apply bool_decide_eq_true, Hall.
      apply list_elem_of_In. exact Hu. }
  revert Hsound Hcomplete. run_service.
  destruct db as [us cs ms oid nx fl]. cbn. intros Hsound Hcomplete.
  destruct fl as [|[e|] fl]; cbn.
  all: eexists _, _; (split; [reflexivity|]); cbn.
  all: repeat match goal with |- _ ∧ _ => split end; try reflexivity.
  all: try exact Hsound; try (intros _; exact Hcomplete).
  all: try (intros; discriminate).
  all: intros c Hc; inversion Hc.
Qed.

Lemma getChatsByParticipants_never_errors_witness :
  (∃ db', getChatsByParticipants ["bob"; "alice"] (Sample.db [Some "connection lost"])
          = (Return [], db'))
  ∧ (∃ chats db', getChatsByParticipants ["bob"; "alice"] (Sample.db [])
                  = (Return chats, db') ∧ Sample.chat_ab ∈ chats).
Proof.
  split.
  - destruct (getChatsByParticipants_never_errors ["bob"; "alice"]
                (Sample.db [Some "connection lost"]))
      as (chats & db' & Heq & _ & _ & _ & _ & Hfault & _).
    exists db'. rewrite Heq, Hfault; reflexivity.
  - destruct (getChatsByParticipants_never_errors ["bob"; "alice"] (Sample.db []))
      as (chats & db' & Heq & _ & _ & _ & _ & _ & Hall).
    exists chats, db'. split; [exact Heq|].
    apply Hall; [reflexivity | apply list_elem_of_here | discriminate |].
    intros u Hu. unfold Sample.chat_ab. cbn.
    apply elem_of_cons in Hu as [-> | Hu]; [in_list|].
    apply elem_of_cons in Hu as [-> | Hu]; [in_list | inversion Hu].
Defined.


Lemma id_and_not_participant_true (chatId userId : string) (c : Chat) :
  id_and_not_participant chatId userId c = true ↔
  chat_id c = chatId ∧ userId ∉ participants c.
Proof.
  unfold id_and_not_participant.
  rewrite andb_true_iff, negb_true_iff, bool_decide_eq_false, String.eqb_eq.
  reflexivity.
Qed.



End ChatServiceClaims.

(* ===================================================================== *)
(** * Properties of the move protocol                                     *)
(* ===================================================================== *)

Section NumberFacts.

Lemma Qred_inject_Z (z : Z) : Qred (inject_Z z) = inject_Z z.
Proof. apply Qred_identity. cbn. apply Z.gcd_1_r. Qed.

Lemma eqb_of_Z_to_Z (n : JS.number) (z : Z) :
  JS.eqb n (JS.of_Z z) = true → JS.to_Z n = Some z.
Proof.
  destruct n as [q|]; [|discriminate]. cbn. intros H.
  apply Qeq_bool_eq, Qred_complete in H. rewrite Qred_inject_Z in H.
  rewrite H. reflexivity.
Qed.

Lemma four_is_not_1_to_3 (n : JS.number) :
  JS.eqb n (JS.of_Z 4) = true → JS.integer_1_to_3 n = false.
Proof.
  destruct n as [q|]; [|discriminate]. cbn. intros H.
  apply Qeq_bool_eq in H. unfold JS.integer_1_to_3.
  apply andb_false_iff. right. cbn.
  destruct (Qle_bool q (inject_Z 3)) eqn:E; [|reflexivity].
  apply Qle_bool_imp_le in E. rewrite H in E. exfalso. apply E. reflexivity.
Qed.

End NumberFacts.

Section ProtocolClaims.
Import NimProtocol.

Lemma validate_unfold (game : GameInstance) (m : GameMove) :
  validate game m =
    if bool_decide (status (state game) = IN_PROGRESS) then
      if bool_decide (playerToMove game = Some (playerID m)) then
        if JS.integer_1_to_3 (numObjects (move m)) then
          if JS.le (numObjects (move m)) (JS.of_Z (remainingObjects (state game)))
          then Ok
          else Rejected "insufficient objects"
        else Rejected "invalid move count"
      else Rejected "not your turn"
    else Rejected "game not active".
Proof. reflexivity. Qed.

Lemma validate_Ok_in_progress (game : GameInstance) (m : GameMove) :
  validate game m = Ok → status (state game) = IN_PROGRESS.
Proof.
  rewrite validate_unfold. case_bool_decide as Ha; [intros _; exact Ha | discriminate].
Qed.

Lemma validate_Ok_turn (game : GameInstance) (m : GameMove) :
  validate game m = Ok → playerToMove game = Some (playerID m).
Proof.
  rewrite validate_unfold. case_bool_decide as Ha; [|discriminate].
  case_bool_decide as Hb; [intros _; exact Hb | discriminate].
Qed.

Lemma validate_not_in_progress (game : GameInstance) (m : GameMove) :
  status (state game) ≠ IN_PROGRESS → validate game m = Rejected "game not active".
Proof.
  intros H. rewrite validate_unfold. case_bool_decide; [contradiction | reflexivity].
Qed.

(** C3: [validate] checks (a) the game is in progress, (b) the mover is
    [participants[moves.length % 2]], (c) the count is an integer in
    [1, 3], (d) the count is at most [remainingObjects], in this order, and
    rejects with the reason of the first check that fails; it accepts
    exactly when all four hold.  A count of 4 against a pile of 5 is
    rejected with "invalid move count". *)
Theorem validate_first_failing_check (game : GameInstance) (m : GameMove) :
  let count := numObjects (move m) in
  let a := status (state game) = IN_PROGRESS in
  let b := playerToMove game = Some (playerID m) in
  let c := JS.integer_1_to_3 count = true in
  let d := JS.le count (JS.of_Z (remainingObjects (state game))) = true in
  (validate game m = Rejected "game not active" ↔ ¬ a)
  ∧ (validate game m = Rejected "not your turn" ↔ a ∧ ¬ b)
  ∧ (validate game m = Rejected "invalid move count" ↔ a ∧ b ∧ ¬ c)
  ∧ (validate game m = Rejected "insufficient objects" ↔ a ∧ b ∧ c ∧ ¬ d)
  ∧ (validate game m = Ok ↔ a ∧ b ∧ c ∧ d)
  ∧ (a → b → JS.eqb count (JS.of_Z 4) = true → remainingObjects (state game) = 5 →
     validate game m = Rejected "invalid move count").
Proof.
  cbv zeta. unfold validate, checks. cbn [first_failing].
  assert (H4 := four_is_not_1_to_3 (numObjects (move m))).
  destruct (bool_decide_reflect (status (state game) = IN_PROGRESS)) as [Ha | Ha];
    [destruct (bool_decide_reflect (playerToMove game = Some (playerID m))) as [Hb | Hb];
     [destruct (JS.integer_1_to_3 (numObjects (move m))) eqn:Hc;
      [destruct (JS.le (numObjects (move m)) (JS.of_Z (remainingObjects (state game))))
         eqn:Hd|]|]|].
  all: repeat split; intros; try tauto; try discriminate; try congruence.
  all: try (exfalso; intuition congruence).
  all: try (intuition congruence).
Qed.

Lemma validate_first_failing_check_witness :
  validate (Sample.game IN_PROGRESS [] 5) (Sample.nim_move "alice" 4)
  = Rejected "invalid move count"
  ∧ validate (Sample.game IN_PROGRESS [] 5) (Sample.nim_move "bob" 4)
    = Rejected "not your turn".
Proof.
  pose proof (validate_first_failing_check (Sample.game IN_PROGRESS [] 5)
                (Sample.nim_move "alice" 4)) as (_ & _ & _ & _ & _ & H4).
  pose proof (validate_first_failing_check (Sample.game IN_PROGRESS [] 5)
                (Sample.nim_move "bob" 4)) as (_ & Hturn & _).
  split.
  - apply H4; reflexivity.
  - apply Hturn. split; [reflexivity | discriminate].
Defined.

(** C1: a validated move that takes all remaining objects leaves the pile
    empty, sets the status to OVER and the winners to the mover alone; the
    game was in progress before, and afterwards every move is rejected
    because the game is not active and leaves the store as it is, so the
    game ends only once. *)
Theorem last_move_ends_game_for_mover (game : GameInstance) (m : GameMove) :
  validate game m = Ok →
  JS.eqb (numObjects (move m)) (JS.of_Z (remainingObjects (state game))) = true →
  status (state game) = IN_PROGRESS
  ∧ remainingObjects (state (resolve game m)) = 0
  ∧ status (state (resolve game m)) = OVER
  ∧ winners (state (resolve game m)) = Some [playerID m]
  ∧ (∀ m', validate (resolve game m) m' = Rejected "game not active")
  ∧ (∀ store gameID m',
       get store gameID = Some (resolve game m) →
       ∃ events, submitMove store gameID m'
                 = (ValidationError "game not active", store, events)).
Proof.
  intros Hok Hcount.
  assert (Hrem : remainingObjects (state (resolve game m)) = 0).
  { unfold resolve. cbn. rewrite (eqb_of_Z_to_Z _ _ Hcount). cbn. lia. }
  assert (Hst : status (state (resolve game m)) = OVER).
  { unfold resolve in *. cbn in *. rewrite Hrem. reflexivity. }
  split; [exact (validate_Ok_in_progress _ _ Hok)|].
  split; [exact Hrem|]. split; [exact Hst|]. split.
  - unfold resolve in *. cbn in *. rewrite Hrem. reflexivity.
  - assert (Hrej : ∀ m', validate (resolve game m) m' = Rejected "game not active").
    { intros m'. apply validate_not_in_progress. rewrite Hst. discriminate. }
    split; [exact Hrej|].
    intros store gameID m' Hget. unfold submitMove. rewrite Hget, Hrej.
    eexists. reflexivity.
Qed.

Lemma last_move_ends_game_for_mover_witness :
  let game := resolve (Sample.game IN_PROGRESS [] 3) (Sample.nim_move "alice" 2) in
  remainingObjects (state game) = 1
  ∧ status (state game) = IN_PROGRESS
  ∧ status (state (resolve game (Sample.nim_move "bob" 1))) = OVER
  ∧ winners (state (resolve game (Sample.nim_move "bob" 1))) = Some ["bob"].
Proof.
  cbv zeta.
  pose proof (last_move_ends_game_for_mover
                (resolve (Sample.game IN_PROGRESS [] 3) (Sample.nim_move "alice" 2))
                (Sample.nim_move "bob" 1) eq_refl eq_refl) as (Hin & _ & Hover & Hwin & _ & _).
  split; [reflexivity|]. split; [exact Hin|]. split; [exact Hover | exact Hwin].
Defined.

(** C4: [submitMove] either commits the whole move — it was validated,
    the stored game is replaced by the resolved one and the update is
    published — or leaves the store exactly as it was: on an unknown game,
    on a rejection (published to the mover only), and when the store
    refuses the write.  A move by a player who is not
    [participants[moves.length % 2]] is rejected and changes nothing, and
    other games are never touched. *)
Theorem submitMove_atomic (store : Store) (gameID : string) (m : GameMove) :
  ∃ r store' events,
    submitMove store gameID m = (r, store', events)
    ∧ match r with
      | Committed =>
          ∃ game, get store gameID = Some game ∧ validate game m = Ok
                  ∧ available store = true
                  ∧ docs store' = <[gameID := resolve game m]> (docs store)
                  ∧ available store' = available store
                  ∧ events = [UpdateEvent gameID (resolve game m)]
      | ValidationError reason =>
          store' = store
          ∧ ∃ game, get store gameID = Some game ∧ validate game m = Rejected reason
                    ∧ events = [ErrorEvent (playerID m)
                                  {| useGamePage.player := playerID m;
                                     useGamePage.error := reason |}]
      | NotFoundError => store' = store ∧ get store gameID = None ∧ events = []
      | PersistenceError => store' = store ∧ available store = false ∧ events = []
      end
    ∧ (r ≠ Committed → store' = store)
    ∧ (∀ game, get store gameID = Some game →
               playerToMove game ≠ Some (playerID m) →
               (∃ reason, r = ValidationError reason) ∧ store' = store)
    ∧ (∀ other, other ≠ gameID → get store' other = get store other).
Proof.
  unfold submitMove.
  destruct (get store gameID) as [game|] eqn:Hget.
  - destruct (validate game m) as [|reason] eqn:Hv.
    + unfold put. destruct (available store) eqn:Hup.
      * eexists _, _, _. split; [reflexivity|]. split; [|split; [|split]].
        -- exists game. repeat split; auto.
        -- intros H. contradiction.
        -- intros g [= <-] Hturn. apply validate_Ok_turn in Hv. contradiction.
        -- intros other Hne. unfold get. cbn. apply lookup_insert_ne. congruence.
      * eexists _, _, _. split; [reflexivity|]. split; [|split; [|split]].
        -- repeat split; auto.
        -- reflexivity.
        -- intros g [= <-] Hturn. apply validate_Ok_turn in Hv. contradiction.
        -- reflexivity.
    + eexists _, _, _. split; [reflexivity|]. split; [|split; [|split]].
      * split; [reflexivity|]. exists game. repeat split; auto.
      * reflexivity.
      * intros g _ _. split; [eexists|]; reflexivity.
      * reflexivity.
  - eexists _, _, _. split; [reflexivity|]. split; [|split; [|split]].
    + repeat split.
    + reflexivity.
    + intros g Hg. discriminate Hg.
    + reflexivity.
Qed.

Lemma submitMove_atomic_witness :
  (∃ reason events,
     submitMove (Sample.store true) "g1" (Sample.nim_move "bob" 1)
     = (ValidationError reason, Sample.store true, events))
  ∧ (∃ r events,
       submitMove (Sample.store false) "g1" (Sample.nim_move "alice" 1)
       = (r, Sample.store false, events)).
Proof.
  split.
  - destruct (submitMove_atomic (Sample.store true) "g1" (Sample.nim_move "bob" 1))
      as (r & store' & events & Heq & _ & _ & Hturn & _).
    destruct (Hturn Sample.fresh_game) as [[reason ->] ->];
      [reflexivity | discriminate |].
    exists reason, events. exact Heq.
  - destruct (submitMove_atomic (Sample.store false) "g1" (Sample.nim_move "alice" 1))
      as (r & store' & events & Heq & _ & Hsame & _).
    rewrite Hsame in Heq.
    + exists r, events. exact Heq.
    + intros ->. vm_compute in Heq. discriminate Heq.
Defined.

End ProtocolClaims.

(* ===================================================================== *)
(** * Further properties of the chat service                              *)
(* ===================================================================== *)

Section ChatServiceLookups.
Import Mongo ChatService.

Ltac in_list_names :=
  repeat first [apply list_elem_of_here | apply list_elem_of_further].

Ltac run_lookup :=
  unfold getChat, addMessageToChat, getChatsByParticipants, addParticipantToChat,
    try_catch, ChatModel_findById, ChatModel_findByIdAndUpdate, ChatModel_find,
    ChatModel_findOneAndUpdate, UserModel_findById, faults_in, not_truthy,
    Error_toString, mbind, M_bind, mret, M_ret, gets, throw, round_trip.


Lemma find_chat_none (f : Chat → bool) (cs : list Chat) (c : Chat) :
  List.find f cs = None → c ∈ cs → f c = false.
Proof.
  intros H Hin. apply list_elem_of_In in Hin. exact (List.find_none _ _ H c Hin).
Qed.

(** The first match of [find] is the head of the first split at a match. *)
Lemma find_chat_split (f : Chat → bool) (pre post : list Chat) (c : Chat) :
  (∀ x, x ∈ pre → f x = false) → f c = true →
  List.find f (pre ++ c :: post) = Some c.
Proof.
  intros Hpre Hc. induction pre as [|x pre IH]; cbn.
  - rewrite Hc. reflexivity.
  - rewrite (Hpre x (list_elem_of_here _ _)). apply IH.
    intros y Hy. apply Hpre, list_elem_of_further, Hy.
Qed.



(** ** Shared facts about the updates *)

Lemma update_first_split (f : Chat → bool) (u : Chat → Chat)
    (pre post : list Chat) (c : Chat) :
  (∀ x, x ∈ pre → f x = false) → f c = true →
  update_first f u (pre ++ c :: post) = (Some (u c), (pre ++ u c :: post)%list).
Proof.
  intros Hpre Hc. induction pre as [|x pre IH]; cbn.
  - rewrite Hc. reflexivity.
  - rewrite (Hpre x (list_elem_of_here _ _)). rewrite IH; [reflexivity|].
    intros y Hy. apply Hpre, list_elem_of_further, Hy.
Qed.

Lemma update_first_none (f : Chat → bool) (u : Chat → Chat) (cs : list Chat) :
  (∀ x, x ∈ cs → f x = false) → update_first f u cs = (None, cs).
Proof.
  intros Hall. induction cs as [|x cs IH]; cbn; [reflexivity|].
  rewrite (Hall x (list_elem_of_here _ _)). rewrite IH; [reflexivity|].
  intros y Hy. apply Hall, list_elem_of_further, Hy.
Qed.

(** How a successful [addMessageToChat] changed the chats. *)
Lemma addMessageToChat_ok_inv (chatId messageId : string) (db db' : DB) (c' : Chat) :
  addMessageToChat chatId messageId db = (Return (ChatOk c'), db') →
  ∃ pre c post,
    db_chats db = (pre ++ c :: post)%list
    ∧ db_chats db' = (pre ++ c' :: post)%list
    ∧ c' = push_message messageId c
    ∧ chat_id c = chatId
    ∧ (∀ x, x ∈ pre → chat_id x ≠ chatId)
    ∧ db_users db' = db_users db ∧ db_messages db' = db_messages db.
Proof.
  pose proof (update_first_spec (λ c, String.eqb (chat_id c) chatId)
                (push_message messageId) (db_chats db)) as Hupd.
  revert Hupd. run_lookup. destruct db as [us cs ms oid nx fl]. cbn.
  destruct (update_first _ _ cs) as [[c1|] cs'] eqn:Hu; intros Hupd;
    destruct fl as [|[e|] fl]; cbn; rewrite ?Hu; cbn; intros [= <- <-]; cbn.
  all: destruct Hupd as (pre & c & post & -> & -> & -> & Hm & Hpre).
  all: exists pre, c, post; repeat split; try (apply String.eqb_eq; exact Hm).
  all: intros x Hx; apply String.eqb_neq, Hpre, Hx.
Qed.

(** When [addMessageToChat] succeeds, and with what. *)
Lemma addMessageToChat_ok_intro (chatId messageId : string) (db : DB)
    (pre post : list Chat) (c : Chat) :
  faults_in 1 db = false →
  db_chats db = (pre ++ c :: post)%list →
  (∀ x, x ∈ pre → chat_id x ≠ chatId) → chat_id c = chatId →
  ∃ db', addMessageToChat chatId messageId db
         = (Return (ChatOk (push_message messageId c)), db')
         ∧ db_chats db' = (pre ++ push_message messageId c :: post)%list
         ∧ db_users db' = db_users db ∧ db_messages db' = db_messages db
         ∧ db_faults db' = tail (db_faults db).
Proof.
  intros Hf Hcs Hpre Hc.
  assert (Hu : update_first (λ c, String.eqb (chat_id c) chatId) (push_message messageId)
                 (db_chats db)
               = (Some (push_message messageId c),
                  (pre ++ push_message messageId c :: post)%list)).
  { rewrite Hcs. apply update_first_split.
    - intros x Hx. apply String.eqb_neq, Hpre, Hx.
    - apply String.eqb_eq, Hc. }
  revert Hf Hu. run_lookup. destruct db as [us cs ms oid nx fl]. cbn.
  intros Hf Hu. destruct fl as [|[e|] fl]; cbn in *; try discriminate;
    rewrite Hu; cbn; eexists; repeat split.
Qed.



(** X3: [addMessageToChat] has no guard against repeats: after a
    successful call, a second call with the same arguments succeeds again
    (when its round trip does not fail) and the chat then ends in the
    identifier twice. *)
Theorem addMessageToChat_twice_duplicates
    (chatId messageId : string) (db db1 : DB) (c1 : Chat) :
  addMessageToChat chatId messageId db = (Return (ChatOk c1), db1) →
  faults_in 1 db1 = false →
  ∃ c2 db2,
    addMessageToChat chatId messageId db1 = (Return (ChatOk c2), db2)
    ∧ messages c2 = (messages c1 ++ [messageId])%list
    ∧ (∃ c, c ∈ db_chats db ∧ chat_id c = chatId
            ∧ messages c2 = (messages c ++ [messageId; messageId])%list)
    ∧ (2 ≤ count_occ String.string_dec (messages c2) messageId)%nat.
Proof.
  intros H1 Hf.
  apply addMessageToChat_ok_inv in H1
    as (pre & c & post & Hcs & Hcs1 & -> & Hid & Hpre & _ & _).
  destruct (addMessageToChat_ok_intro chatId messageId db1 pre post
              (push_message messageId c) Hf Hcs1 Hpre Hid)
    as (db2 & Heq & _).
  exists (push_message messageId (push_message messageId c)), db2.
  split; [exact Heq|]. split; [reflexivity|]. split.
  - exists c. split; [rewrite Hcs; apply elem_of_app; right; apply list_elem_of_here|].
    split; [exact Hid|]. cbn. rewrite <- app_assoc. reflexivity.
  - cbn. rewrite !count_occ_app. cbn.
    destruct (String.string_dec messageId messageId); [lia | contradiction].
Qed.

Lemma addMessageToChat_twice_duplicates_witness :
  ∃ c1 db1 c2 db2,
    addMessageToChat "c2" "m7" (Sample.db []) = (Return (ChatOk c1), db1)
    ∧ addMessageToChat "c2" "m7" db1 = (Return (ChatOk c2), db2)
    ∧ messages c2 = ["m7"; "m7"].
Proof.
  eexists _, _.
  destruct (addMessageToChat_twice_duplicates "c2" "m7" (Sample.db []) _ _ eq_refl eq_refl)
    as (c2 & db2 & Heq & Hm & _).
  exists c2, db2. split; [reflexivity|]. split; [exact Heq | exact Hm].
Defined.

(** X4: a chat read back with [getChat] after a successful
    [addMessageToChat] is the updated chat, ending in the new message
    identifier (when the lookup does not fail). *)
Theorem getChat_after_addMessageToChat
    (chatId messageId : string) (db db1 : DB) (c1 : Chat) :
  addMessageToChat chatId messageId db = (Return (ChatOk c1), db1) →
  faults_in 1 db1 = false →
  ∃ db2, getChat chatId db1 = (Return (ChatOk c1), db2)
         ∧ last (messages c1) = Some messageId
         ∧ db_chats db2 = db_chats db1.
Proof.
  intros H1 Hf.
  apply addMessageToChat_ok_inv in H1
    as (pre & c & post & Hcs & Hcs1 & -> & Hid & Hpre & _ & _).
  assert (Hfind : List.find (λ c, String.eqb (chat_id c) chatId) (db_chats db1)
                  = Some (push_message messageId c)).
  { rewrite Hcs1. apply find_chat_split.
    - intros x Hx. apply String.eqb_neq, Hpre, Hx.
    - apply String.eqb_eq, Hid. }
  revert Hf Hfind. run_lookup. destruct db1 as [us cs ms oid nx fl]. cbn.
  intros Hf Hfind. destruct fl as [|[e|] fl]; cbn in *; try discriminate;
    rewrite Hfind; cbn; eexists; (split; [reflexivity|]);
    (split; [apply last_snoc | reflexivity]).
Qed.

Lemma getChat_after_addMessageToChat_witness :
  ∃ c1 db1 db2,
    addMessageToChat "c1" "m7" (Sample.db []) = (Return (ChatOk c1), db1)
    ∧ getChat "c1" db1 = (Return (ChatOk c1), db2)
    ∧ last (messages c1) = Some "m7".
Proof.
  eexists _, _.
  destruct (getChat_after_addMessageToChat "c1" "m7" (Sample.db []) _ _ eq_refl eq_refl)
    as (db2 & Heq & Hlast & _).
  exists db2. split; [reflexivity|]. split; [exact Heq | exact Hlast].
Defined.

(** How a successful [addParticipantToChat] changed the chats. *)
Lemma addParticipantToChat_ok_inv (chatId userId : string) (db db' : DB) (c' : Chat) :
  addParticipantToChat chatId userId db = (Return (ChatOk c'), db') →
  ∃ pre c post,
    db_chats db = (pre ++ c :: post)%list
    ∧ db_chats db' = (pre ++ c' :: post)%list
    ∧ c' = push_participant userId c
    ∧ chat_id c = chatId ∧ (userId ∉ participants c)
    ∧ db_users db' = db_users db
    ∧ ∃ u, List.find (λ u, String.eqb (user_id u) userId) (db_users db) = Some u.
Proof.
  pose proof (update_first_spec (id_and_not_participant chatId userId)
                (push_participant userId) (db_chats db)) as Hupd.
  revert Hupd. run_lookup. destruct db as [us cs ms oid nx fl]. cbn.
  destruct (update_first _ _ cs) as [[c1|] cs'] eqn:Hu; intros Hupd;
    destruct fl as [|[e|] [|[e2|] fl]]; cbn;
    destruct (List.find _ us) as [u|] eqn:Hfind; cbn; rewrite ?Hu; cbn;
    intros [= <- <-]; cbn.
  all: destruct Hupd as (pre & c & post & -> & -> & -> & Hm & Hpre).
  all: apply id_and_not_participant_true in Hm as [Hid Hnot].
  all: exists pre, c, post; repeat split; try assumption; eauto.
Qed.

Lemma unique_ids_split (pre post : list Chat) (c : Chat) :
  NoDup (chat_id <$> (pre ++ c :: post)%list) →
  ∀ x, x ∈ (pre ++ post)%list → chat_id x ≠ chat_id c.
Proof.
  rewrite fmap_app, fmap_cons. intros Hnd x Hx Heq.
  apply NoDup_app in Hnd as (_ & Hdisj & Hpost).
  apply NoDup_cons in Hpost as [Hnotin _].
  apply elem_of_app in Hx as [Hx | Hx].
  - apply (Hdisj (chat_id x)).
    + apply list_elem_of_fmap. exists x. split; [reflexivity | exact Hx].
    + rewrite Heq. apply list_elem_of_here.
  - apply Hnotin. rewrite <- Heq.
    apply list_elem_of_fmap. exists x. split; [reflexivity | exact Hx].
Qed.

(** X5: with pairwise different chat identifiers, adding the same
    participant again is refused: after a successful
    [addParticipantToChat] a second call with the same arguments answers
    with an error and leaves the chats as the first call left them. *)
Theorem addParticipantToChat_again_refused
    (chatId userId : string) (db db1 : DB) (c1 : Chat) :
  unique_chat_ids db →
  addParticipantToChat chatId userId db = (Return (ChatOk c1), db1) →
  ∃ e db2,
    addParticipantToChat chatId userId db1 = (Return (ChatError e), db2)
    ∧ db_chats db2 = db_chats db1
    ∧ (faults_in 2 db1 = false →
       e = "Error adding participant to chat: Chat not found or user already a participant.").
Proof.
  intros Huniq H1.
  apply addParticipantToChat_ok_inv in H1
    as (pre & c & post & Hcs & Hcs1 & -> & Hid & Hnot & Hus & u & Hu).
  unfold unique_chat_ids in Huniq. rewrite Hcs in Huniq.
  pose proof (unique_ids_split pre post c Huniq) as Hother.
  assert (Hnone : update_first (id_and_not_participant chatId userId)
                    (push_participant userId) (db_chats db1) = (None, db_chats db1)).
  { apply update_first_none. intros x Hx. rewrite Hcs1 in Hx.
    destruct (id_and_not_participant chatId userId x) eqn:E; [|reflexivity].
    apply id_and_not_participant_true in E as [Ex Enot]. exfalso.
    apply elem_of_app in Hx as [Hx | Hx].
    - apply (Hother x); [apply elem_of_app; left; exact Hx | congruence].
    - apply elem_of_cons in Hx as [-> | Hx].
      + apply Enot. cbn. apply elem_of_app. right. apply list_elem_of_here.
      + apply (Hother x); [apply elem_of_app; right; exact Hx | congruence]. }
  rewrite <- Hus in Hu. revert Hnone Hu. clear.
  run_lookup. destruct db1 as [us cs ms oid nx fl]. cbn. intros Hnone Hu.
  destruct fl as [|[e|] [|[e2|] fl]]; cbn; rewrite ?Hu; cbn; rewrite ?Hnone; cbn.
  all: eexists _, _; (split; [reflexivity|]); cbn; split; try reflexivity.
  all: intros; first [reflexivity | discriminate].
Qed.

Lemma addParticipantToChat_again_refused_witness :
  ∃ c1 db1 db2,
    addParticipantToChat "c2" "u1" (Sample.db []) = (Return (ChatOk c1), db1)
    ∧ addParticipantToChat "c2" "u1" db1
      = (Return (ChatError
           "Error adding participant to chat: Chat not found or user already a participant."),
         db2).
Proof.
  assert (Huniq : unique_chat_ids (Sample.db [])).
  { unfold unique_chat_ids. cbn. apply NoDup_cons. split.
    - intros H. apply list_elem_of_singleton in H. discriminate H.
    - apply NoDup_singleton. }
  eexists _, _.
  destruct (addParticipantToChat_again_refused "c2" "u1" (Sample.db []) _ _ Huniq eq_refl)
    as (e & db2 & Heq & _ & He).
  exists db2. split; [reflexivity|]. rewrite Heq, He; reflexivity.
Defined.

(** X6: with pairwise different chat identifiers, a chat read back with
    [getChat] after a successful [addParticipantToChat] is the updated
    chat, with the new participant at the end (when the lookup does not
    fail). *)
Theorem getChat_after_addParticipantToChat
    (chatId userId : string) (db db1 : DB) (c1 : Chat) :
  unique_chat_ids db →
  addParticipantToChat chatId userId db = (Return (ChatOk c1), db1) →
  faults_in 1 db1 = false →
  ∃ db2, getChat chatId db1 = (Return (ChatOk c1), db2)
         ∧ last (participants c1) = Some userId.
Proof.
  intros Huniq H1 Hf.
  apply addParticipantToChat_ok_inv in H1
    as (pre & c & post & Hcs & Hcs1 & -> & Hid & Hnot & _ & _).
  unfold unique_chat_ids in Huniq. rewrite Hcs in Huniq.
  pose proof (unique_ids_split pre post c Huniq) as Hother.
  assert (Hfind : List.find (λ c, String.eqb (chat_id c) chatId) (db_chats db1)
                  = Some (push_participant userId c)).
  { rewrite Hcs1. apply find_chat_split.
    - intros x Hx. apply String.eqb_neq. rewrite <- Hid.
      apply Hother, elem_of_app. left. exact Hx.
    - apply String.eqb_eq, Hid. }
  revert Hf Hfind. clear. run_lookup. destruct db1 as [us cs ms oid nx fl]. cbn.
  intros Hf Hfind. destruct fl as [|[e|] fl]; cbn in *; try discriminate;
    rewrite Hfind; cbn; eexists; (split; [reflexivity | apply last_snoc]).
Qed.

Lemma getChat_after_addParticipantToChat_witness :
  ∃ c1 db1 db2,
    addParticipantToChat "c2" "u1" (Sample.db []) = (Return (ChatOk c1), db1)
    ∧ getChat "c2" db1 = (Return (ChatOk c1), db2)
    ∧ participants c1 = ["bob"; "u1"].
Proof.
  assert (Huniq : unique_chat_ids (Sample.db [])).
  { unfold unique_chat_ids. cbn. apply NoDup_cons. split.
    - intros H. apply list_elem_of_singleton in H. discriminate H.
    - apply NoDup_singleton. }
  eexists _, _.
  destruct (getChat_after_addParticipantToChat "c2" "u1" (Sample.db []) _ _
              Huniq eq_refl eq_refl) as (db2 & Heq & _).
  exists db2. split; [reflexivity|]. split; [exact Heq | reflexivity].
Defined.

Lemma all_participants_true (p : list string) (c : Chat) :
  all_participants p c = true ↔ p ≠ [] ∧ ∀ u, u ∈ p → u ∈ participants c.
Proof.
  unfold all_participants.
  rewrite andb_true_iff, negb_true_iff, bool_decide_eq_false, forallb_forall.
  split; intros [Hne Hall]; (split; [exact Hne|]); intros u Hu.
  - apply list_elem_of_In in Hu. apply Hall in Hu.
    apply bool_decide_eq_true in Hu. exact Hu.
  - apply bool_decide_eq_true, Hall, list_elem_of_In, Hu.
Qed.

Lemma all_participants_same_names (p p' : list string) (c : Chat) :
  (∀ u, u ∈ p ↔ u ∈ p') → all_participants p c = all_participants p' c.
Proof.
  intros Hsame.
  assert (Hdir : ∀ q q', (∀ u, u ∈ q ↔ u ∈ q') →
                         all_participants q c = true → all_participants q' c = true).
  { intros q q' Hqq [Hne Hall]%all_participants_true. apply all_participants_true. split.
    - destruct q as [|x q]; [contradiction|]. intros ->.
      assert (Hx : x ∈ @nil string) by (apply Hqq, list_elem_of_here). inversion Hx.
    - intros u Hu. apply Hall, Hqq, Hu. }
  destruct (all_participants p c) eqn:E, (all_participants p' c) eqn:E'; try reflexivity.
  - rewrite (Hdir p p' Hsame E) in E'. discriminate.
  - assert (Hsym : ∀ u, u ∈ p' ↔ u ∈ p) by (intros u; symmetry; apply Hsame).
    rewrite (Hdir p' p Hsym E') in E. discriminate.
Qed.

(** What [getChatsByParticipants] resolves to when the lookup works. *)
Lemma getChatsByParticipants_ok (p : list string) (db : DB) :
  faults_in 1 db = false →
  ∃ db', getChatsByParticipants p db
         = (Return (List.filter (all_participants p) (db_chats db)), db')
         ∧ db_chats db' = db_chats db.
Proof.
  run_lookup. destruct db as [us cs ms oid nx fl]. cbn.
  destruct fl as [|[e|] fl]; cbn; intros Hf; try discriminate;
    eexists; split; reflexivity.
Qed.

(** X7: for [getChatsByParticipants] only the set of the given names
    counts: two lists with the same elements, in any order and with any
    repetitions, give the same answer on the same database. *)
Theorem getChatsByParticipants_same_names (p p' : list string) (db : DB) :
  (∀ u, u ∈ p ↔ u ∈ p') →
  getChatsByParticipants p db = getChatsByParticipants p' db.
Proof.
  intros Hsame.
  assert (Hf : List.filter (all_participants p) (db_chats db)
               = List.filter (all_participants p') (db_chats db)).
  { apply List.filter_ext. intros c. apply all_participants_same_names, Hsame. }
  revert Hf. run_lookup. destruct db as [us cs ms oid nx fl]. cbn. intros Hf.
  destruct fl as [|[e|] fl]; cbn; rewrite ?Hf; reflexivity.
Qed.

Lemma getChatsByParticipants_same_names_witness :
  getChatsByParticipants ["bob"; "alice"] (Sample.db [])
  = getChatsByParticipants ["alice"; "bob"; "alice"] (Sample.db []).
Proof.
  apply getChatsByParticipants_same_names. intros u. split; intros Hu.
  - apply elem_of_cons in Hu as [-> | Hu]; [in_list_names|].
    apply elem_of_cons in Hu as [-> | Hu]; [in_list_names | inversion Hu].
  - apply elem_of_cons in Hu as [-> | Hu]; [in_list_names|].
    apply elem_of_cons in Hu as [-> | Hu]; [in_list_names|].
    apply elem_of_cons in Hu as [-> | Hu]; [in_list_names | inversion Hu].
Defined.

(** X8: after a successful [addParticipantToChat], the updated chat is
    among the chats [getChatsByParticipants] finds for the new
    participant (when the lookup does not fail). *)
Theorem getChatsByParticipants_after_addParticipantToChat
    (chatId userId : string) (db db1 : DB) (c1 : Chat) :
  addParticipantToChat chatId userId db = (Return (ChatOk c1), db1) →
  faults_in 1 db1 = false →
  ∃ chats db2,
    getChatsByParticipants [userId] db1 = (Return chats, db2)
    ∧ c1 ∈ chats
    ∧ ∀ c, c ∈ chats → userId ∈ participants c.
Proof.
  intros H1 Hf.
  apply addParticipantToChat_ok_inv in H1
    as (pre & c & post & Hcs & Hcs1 & -> & Hid & Hnot & _ & _).
  destruct (getChatsByParticipants_ok [userId] db1 Hf) as (db2 & Heq & _).
  eexists _, db2. split; [exact Heq|]. split.
  - apply list_elem_of_In, List.filter_In. split.
    + apply list_elem_of_In. rewrite Hcs1. apply elem_of_app. right. apply list_elem_of_here.
    + apply all_participants_true. split; [discriminate|].
      intros u Hu. apply list_elem_of_singleton in Hu as ->.
      cbn. apply elem_of_app. right. apply list_elem_of_here.
  - intros x Hx. apply list_elem_of_In, List.filter_In in Hx as [_ Hx].
    apply all_participants_true in Hx as [_ Hx]. apply Hx, list_elem_of_here.
Qed.

Lemma getChatsByParticipants_after_addParticipantToChat_witness :
  ∃ c1 db1 chats db2,
    addParticipantToChat "c2" "u1" (Sample.db []) = (Return (ChatOk c1), db1)
    ∧ getChatsByParticipants ["u1"] db1 = (Return chats, db2)
    ∧ c1 ∈ chats.
Proof.
  eexists _, _.
  destruct (getChatsByParticipants_after_addParticipantToChat "c2" "u1" (Sample.db []) _ _
              eq_refl eq_refl) as (chats & db2 & Heq & Hin & _).
  exists chats, db2. split; [reflexivity|]. split; [exact Heq | exact Hin].
Defined.

End ChatServiceLookups.

Section SaveChat.
Import Mongo ChatService.

Ltac run_save :=
  unfold saveChat, save_direct, try_catch, new_MessageModel, Message_save,
    new_ChatModel, Chat_save, faults_in, Error_toString,
    mbind, M_bind, mret, M_ret, gets, throw, round_trip.

(** One callback of the map: it stores one direct copy, or nothing. *)
Lemma save_direct_spec (m : Message) (db : DB) :
  ∃ o db',
    save_direct m db = (o, db')
    ∧ db_users db' = db_users db ∧ db_chats db' = db_chats db
    ∧ match o with
      | Return i => ∃ s, db_messages db' = (db_messages db ++ [s])%list
                         ∧ msg_id s = Some i ∧ direct_copy m s
      | Throw _ => db_messages db' = db_messages db
      end.
Proof.
  run_save. unfold direct_copy, the_id, id_taken.
  destruct db as [us cs ms oid nx fl], m as [mid mm mf mt ty]. cbn.
  destruct mid as [i|]; cbn; destruct fl as [|[e|] fl]; cbn;
    match goal with
    | |- context [existsb ?f ms] => destruct (existsb f ms)
    | _ => idtac
    end; cbn.
  all: eexists _, _; (split; [reflexivity|]); cbn.
  all: repeat split.
  all: eexists; repeat split.
Qed.

(** All callbacks together: the stored messages grow by direct copies of
    payload messages, by one for each message when all saves succeed. *)
Lemma Promise_all_map_save_direct (msgs : list Message) (db : DB) :
  ∃ o db' saved,
    Promise_all_map save_direct msgs db = (o, db')
    ∧ db_users db' = db_users db ∧ db_chats db' = db_chats db
    ∧ db_messages db' = (db_messages db ++ saved)%list
    ∧ Forall (λ s, ∃ m, m ∈ msgs ∧ direct_copy m s) saved
    ∧ match o with
      | Return ids => Forall2 direct_copy msgs saved
                      ∧ Some <$> ids = msg_id <$> saved
      | Throw _ => (length saved < length msgs)%nat
      end.
Proof.
  revert db. induction msgs as [|m msgs IH]; intros db.
  - exists (Return []), db, []. cbn. rewrite app_nil_r.
    repeat split; constructor.
  - cbn [Promise_all_map].
    destruct (save_direct_spec m db) as (o & db1 & Hs & Hus & Hcs & Ho).
    destruct (IH db1) as (os & db2 & saved & Hp & Hus2 & Hcs2 & Hms2 & Hall & Hos).
    rewrite Hs, Hp.
    assert (Hall' : Forall (λ s, ∃ m0, m0 ∈ m :: msgs ∧ direct_copy m0 s) saved).
    { eapply Forall_impl; [exact Hall|]. intros s (m0 & Hin & Hd).
      exists m0. split; [apply list_elem_of_further; exact Hin | exact Hd]. }
    destruct o as [e | i].
    + exists (Throw e), db2, saved.
      split; [reflexivity|]. rewrite Hus2, Hcs2, Hms2, Hus, Hcs, Ho.
      repeat split; try exact Hall'.
      destruct os; [|destruct Hos as [Hf2 _]; apply Forall2_length in Hf2]; cbn; lia.
    + destruct Ho as (s & Hms & Hid & Hd).
      assert (Hall'' : Forall (λ s, ∃ m0, m0 ∈ m :: msgs ∧ direct_copy m0 s) (s :: saved)).
      { constructor; [|exact Hall']. exists m. split; [apply list_elem_of_here | exact Hd]. }
      destruct os as [e | ids].
      * exists (Throw e), db2, (s :: saved).
        split; [reflexivity|]. rewrite Hus2, Hcs2, Hms2, Hus, Hcs, Hms, <- app_assoc.
        repeat split; try exact Hall''. cbn. lia.
      * destruct Hos as [Hf2 Hids].
        exists (Return (i :: ids)), db2, (s :: saved).
        split; [reflexivity|]. rewrite Hus2, Hcs2, Hms2, Hus, Hcs, Hms, <- app_assoc.
        repeat split; try exact Hall''.
        -- constructor; assumption.
        -- cbn. rewrite Hid, Hids. reflexivity.
Qed.

(** Every way [saveChat] can end. *)
Lemma saveChat_cases (chatPayload : CreateChatPayload) (db : DB) :
  ∃ r db' saved,
    saveChat chatPayload db = (Return r, db')
    ∧ db_users db' = db_users db
    ∧ db_messages db' = (db_messages db ++ saved)%list
    ∧ Forall (λ s, ∃ m, m ∈ payload_messages chatPayload ∧ direct_copy m s) saved
    ∧ match r with
      | ChatOk c =>
          db_chats db' = (db_chats db ++ [c])%list
          ∧ chat_id_taken (chat_id c) (db_chats db) = false
          ∧ participants c = payload_participants chatPayload
          ∧ Forall2 direct_copy (payload_messages chatPayload) saved
          ∧ Some <$> messages c = msg_id <$> saved
      | ChatError _ => db_chats db' = db_chats db
      end.
Proof.
  destruct (Promise_all_map_save_direct (payload_messages chatPayload) db)
    as (o & db1 & saved & Hp & Hus & Hcs & Hms & Hall & Ho).
  unfold saveChat, try_catch, mbind, M_bind. rewrite Hp.
  destruct o as [e | ids].
  - exists (ChatError ("Error saving chat: " +:+ Error_toString e)), db1, saved.
    repeat split; assumption.
  - destruct Ho as [Hf2 Hids].
    unfold new_ChatModel, Chat_save, mbind, M_bind, mret, M_ret, round_trip.
    unfold chat_id_taken.
    destruct db1 as [us cs ms oid nx fl]. cbn in *.
    destruct fl as [|[e|] fl]; cbn;
      try destruct (existsb (λ c', String.eqb (chat_id c') (oid nx)) cs) eqn:Htaken; cbn.
    all: eexists _, _, saved; (split; [reflexivity|]); cbn.
    all: repeat split; try assumption; try congruence.
Qed.

(** X9: when [saveChat] succeeds, the new chat is added after the stored
    chats under an identifier no stored chat had, with the participants
    exactly as given (nothing is looked up or removed from them); every
    payload message is stored as a direct message with its text, sender
    and time, in the payload's order, and the chat lists their
    identifiers in that order. *)
Theorem saveChat_stores_chat_and_messages
    (chatPayload : CreateChatPayload) (db db' : DB) (c : Chat) :
  saveChat chatPayload db = (Return (ChatOk c), db') →
  db_chats db' = (db_chats db ++ [c])%list
  ∧ (∀ x, x ∈ db_chats db → chat_id x ≠ chat_id c)
  ∧ participants c = payload_participants chatPayload
  ∧ length (messages c) = length (payload_messages chatPayload)
  ∧ db_users db' = db_users db
  ∧ ∃ saved,
      db_messages db' = (db_messages db ++ saved)%list
      ∧ Forall2 direct_copy (payload_messages chatPayload) saved
      ∧ Some <$> messages c = msg_id <$> saved.
Proof.
  intros H.
  destruct (saveChat_cases chatPayload db)
    as (r & db2 & saved & Heq & Hus & Hms & _ & Hr).
  rewrite H in Heq. injection Heq as <- <-.
  destruct Hr as (Hcs & Htaken & Hps & Hf2 & Hids).
  split; [exact Hcs|]. split; [|split; [exact Hps|]; split; [|split; [exact Hus|]]].
  - intros x Hx Heq. unfold chat_id_taken in Htaken.
    assert (Ht : existsb (λ c', String.eqb (chat_id c') (chat_id c)) (db_chats db) = true).
    { apply existsb_exists. exists x. split; [apply list_elem_of_In; exact Hx|].
      apply String.eqb_eq, Heq. }
    congruence.
  - apply Forall2_length in Hf2. rewrite Hf2.
    assert (Hl : length (Some <$> messages c) = length (msg_id <$> saved)) by (rewrite Hids; reflexivity).
    rewrite !length_fmap in Hl. exact Hl.
  - exists saved. repeat split; assumption.
Qed.

Lemma saveChat_stores_chat_and_messages_witness :
  ∃ c db',
    saveChat Sample.new_chat (Sample.db []) = (Return (ChatOk c), db')
    ∧ participants c = ["alice"; "carol"; "alice"]
    ∧ length (messages c) = 2%nat
    ∧ length (db_messages db') = 2%nat.
Proof.
  eexists _, _.
  destruct (saveChat_stores_chat_and_messages Sample.new_chat (Sample.db []) _ _ eq_refl)
    as (_ & _ & Hps & Hlen & _).
  split; [reflexivity|]. split; [exact Hps|]. split; [exact Hlen | reflexivity].
Defined.




Lemma getChat_found (chatId : string) (db : DB) (c : Chat) :
  faults_in 1 db = false →
  List.find (λ c, String.eqb (chat_id c) chatId) (db_chats db) = Some c →
  ∃ db2, getChat chatId db = (Return (ChatOk c), db2) ∧ db_chats db2 = db_chats db.
Proof.
  unfold getChat, try_catch, ChatModel_findById, faults_in,
    mbind, M_bind, mret, M_ret, gets, throw, round_trip.
  destruct db as [us cs ms oid nx fl]. cbn. intros Hf Hfind.
  destruct fl as [|[e|] fl]; cbn in *; try discriminate;
    rewrite Hfind; cbn; eexists; split; reflexivity.
Qed.

(** X11: a chat that [saveChat] created is read back by [getChat] under
    its identifier, and [getChatsByParticipants] finds it for any
    non-empty list of names taken from its participants (when these
    lookups do not fail). *)
Theorem saved_chat_is_found
    (chatPayload : CreateChatPayload) (db db' : DB) (c : Chat) :
  saveChat chatPayload db = (Return (ChatOk c), db') →
  faults_in 1 db' = false →
  (∃ db2, getChat (chat_id c) db' = (Return (ChatOk c), db2))
  ∧ ∀ p, p ≠ [] → (∀ u, u ∈ p → u ∈ payload_participants chatPayload) →
         ∃ chats db2, getChatsByParticipants p db' = (Return chats, db2) ∧ c ∈ chats.
Proof.
  intros Hsave Hf.
  destruct (saveChat_cases chatPayload db)
    as (r2 & db2 & saved & Heq & _ & _ & _ & Hr).
  rewrite Hsave in Heq. injection Heq as <- <-.
  destruct Hr as (Hcs & Htaken & Hps & _ & _).
  split.
  - destruct (getChat_found (chat_id c) db' c Hf) as (db2 & Hg & _).
    + rewrite Hcs. apply find_chat_split; [|apply String.eqb_refl].
      intros x Hx. unfold chat_id_taken in Htaken.
      destruct (String.eqb (chat_id x) (chat_id c)) eqn:E; [|reflexivity].
      assert (Ht : existsb (λ c', String.eqb (chat_id c') (chat_id c)) (db_chats db) = true).
      { apply existsb_exists. exists x. split; [apply list_elem_of_In; exact Hx | exact E]. }
      congruence.
    + exists db2. exact Hg.
  - intros p Hne Hsub.
    destruct (getChatsByParticipants_ok p db' Hf) as (db2 & Hg & _).
    eexists _, db2. split; [exact Hg|].
    apply list_elem_of_In, List.filter_In. split.
    + apply list_elem_of_In. rewrite Hcs. apply elem_of_app. right. apply list_elem_of_here.
    + apply all_participants_true. split; [exact Hne|].
      intros u Hu. rewrite Hps. apply Hsub, Hu.
Qed.

Lemma saved_chat_is_found_witness :
  ∃ c db' db2 chats db3,
    saveChat Sample.new_chat (Sample.db []) = (Return (ChatOk c), db')
    ∧ getChat (chat_id c) db' = (Return (ChatOk c), db2)
    ∧ getChatsByParticipants ["carol"] db' = (Return chats, db3) ∧ c ∈ chats.
Proof.
  eexists _, _.
  destruct (saved_chat_is_found Sample.new_chat (Sample.db []) _ _ eq_refl eq_refl)
    as ((db2 & Hg) & Hp).
  destruct (Hp ["carol"]) as (chats & db3 & Heq & Hin); [discriminate | |].
  - intros u Hu. apply list_elem_of_singleton in Hu as ->.
    apply list_elem_of_further, list_elem_of_here.
  - exists db2, chats, db3. split; [reflexivity|]. split; [exact Hg|].
    split; [exact Heq | exact Hin].
Defined.

End SaveChat.

(* ===================================================================== *)
(** * Further properties of the game pages                                *)
(* ===================================================================== *)

Section NimPageExtras.
Import useNimGamePage NimGamePage.

(** X12: the page lets a user submit a move only while the game is in
    progress and only if the user is one of the players; and in any game
    state at most one user name can submit: when a click of one user sends
    a move, a click of a user with another name sends nothing. *)
Theorem only_one_player_can_submit
    (user other : User) (mv mv' : MoveValue) (gameState : GameInstance) :
  (click_submit user mv gameState ≠ [] →
     status (state gameState) = IN_PROGRESS
     ∧ username user ∈ players gameState
     ∧ (username other ≠ username user → click_submit other mv' gameState = []))
  ∧ (username user ∉ players gameState → click_submit user mv gameState = [])
  ∧ (status (state gameState) ≠ IN_PROGRESS → click_submit user mv gameState = []).
Proof.
  unfold click_submit, render. cbn [move_panel].
  destruct (decide (status (state gameState) = IN_PROGRESS)) as [Hst | Hst];
    cbn [submit_disabled].
  - destruct (bool_decide_reflect
                (players gameState !! (length (moves (state gameState)) mod 2)%nat
                 = Some (username user))) as [Hu | Hu]; cbn [negb].
    + split; [|split].
      * intros _. split; [exact Hst|]. split.
        -- apply list_elem_of_lookup. eexists. exact Hu.
        -- intros Hne.
           destruct (bool_decide_reflect
                       (players gameState !! (length (moves (state gameState)) mod 2)%nat
                        = Some (username other))) as [Ho | Ho]; [|reflexivity].
           rewrite Hu in Ho. injection Ho as Ho. congruence.
      * intros Hnot. exfalso. apply Hnot.
        apply list_elem_of_lookup. eexists. exact Hu.
      * intros H. contradiction.
    + split; [|split]; [intros H; contradiction | reflexivity | reflexivity].
  - split; [|split]; [intros H; contradiction | reflexivity | reflexivity].
Qed.

Lemma only_one_player_can_submit_witness :
  click_submit Sample.bob initial Sample.fresh_game = []
  ∧ username Sample.alice ∈ players Sample.fresh_game.
Proof.
  destruct (only_one_player_can_submit Sample.alice Sample.bob initial initial
              Sample.fresh_game) as [H _].
  destruct H as (_ & Hin & Hother); [intros H; discriminate H|].
  split; [apply Hother; discriminate | exact Hin].
Defined.

End NimPageExtras.

Section GamePageExtras.
Import useGamePage.

(** Membership in a list that is written out, as a disjunction. *)
Ltac members :=
  repeat setoid_rewrite elem_of_cons; repeat setoid_rewrite elem_of_nil;
  intros; split; intros;
  repeat match goal with
         | H : _ ∨ _ |- _ => destruct H
         | H : _ ∧ _ |- _ => destruct H
         | H : False |- _ => destruct H
         | H : _ = _ |- _ => first [discriminate H | injection H as H | subst]
         end;
  subst; repeat split; auto; try congruence; try (exfalso; eauto; fail).

Lemma on_event_joinedGameID (user : User) (s : HookState) (ev : SocketEvent) :
  st_joinedGameID (on_event user s ev) = st_joinedGameID s.
Proof.
  destruct ev as [p | p]; cbn; [reflexivity|].
  unfold on_event, handleGameError. cbn. destruct (String.eqb _ _); reflexivity.
Qed.

Lemma on_events_joinedGameID (user : User) (evs : list SocketEvent) (s : HookState) :
  st_joinedGameID (on_events user s evs) = st_joinedGameID s.
Proof.
  revert s. induction evs as [|ev evs IH]; intros s; [reflexivity|].
  unfold on_events in *. cbn [foldl]. rewrite IH. apply on_event_joinedGameID.
Qed.

(** Errors addressed to other players change nothing. *)
Lemma on_events_foreign_errors (user : User) (evs : list SocketEvent) (s : HookState) :
  Forall (λ ev, is_update ev = false ∧ error_for user ev = false) evs →
  on_events user s evs = s.
Proof.
  revert s. induction evs as [|ev evs IH]; intros s Hall; [reflexivity|].
  apply Forall_cons in Hall as [[Hu He] Hall].
  unfold on_events in *. cbn [foldl].
  assert (Hs : on_event user s ev = s).
  { destruct ev as [p | p]; [discriminate Hu|].
    unfold on_event, handleGameError. cbn in He. rewrite He. reflexivity. }
  rewrite Hs. apply IH, Hall.
Qed.

(** X13: over any sequence of socket events, the joined game identifier
    never changes; errors addressed to other players leave the whole hook
    state as it is; and once a game update has arrived, with nothing but
    such foreign errors after it, the page shows that update's game and no
    error banner, whatever came before. *)
Theorem game_update_clears_error
    (user : User) (mv : useNimGamePage.MoveValue) (s : HookState)
    (before after : list SocketEvent) (payload : GameUpdatePayload) :
  Forall (λ ev, is_update ev = false ∧ error_for user ev = false) after →
  let s' := on_events user s (before ++ gameUpdate payload :: after) in
  st_gameState s' = Some (upd_gameState payload)
  ∧ st_error s' = None
  ∧ st_joinedGameID s' = st_joinedGameID s
  ∧ GamePage.error_banner (GamePage.render user mv s') = None
  ∧ GamePage.game_status (GamePage.render user mv s')
    = GamePage.Status (status (state (upd_gameState payload)))
  ∧ on_events user s after = s.
Proof.
  intros Hafter. cbv zeta.
  assert (Hs : on_events user s (before ++ gameUpdate payload :: after)
               = on_event user (on_events user s before) (gameUpdate payload)).
  { unfold on_events. rewrite foldl_app. cbn [foldl].
    apply (on_events_foreign_errors user after _ Hafter). }
  rewrite Hs. unfold GamePage.render. cbn.
  repeat split.
  - apply on_events_joinedGameID.
  - apply on_events_foreign_errors, Hafter.
Qed.

Lemma game_update_clears_error_witness :
  let s' := on_events Sample.alice Sample.idle
              [gameError {| player := "alice"; error := "not your turn" |};
               gameUpdate {| upd_gameState := Sample.fresh_game |};
               gameError Sample.error_for_bob] in
  st_error s' = None ∧ st_gameState s' = Some Sample.fresh_game.
Proof.
  cbv zeta.
  destruct (game_update_clears_error Sample.alice useNimGamePage.initial Sample.idle
              [gameError {| player := "alice"; error := "not your turn" |}]
              [gameError Sample.error_for_bob]
              {| upd_gameState := Sample.fresh_game |}) as (Hg & He & _).
  - constructor; [split; reflexivity | constructor].
  - split; [exact He | exact Hg].
Defined.

(** X14: [handleLeaveGame] always ends by navigating to '/games' and
    sets no state.  It asks the server to leave exactly when a game was
    joined (a non-empty identifier) and the shown game is not over, then
    for the joined identifier and the user's name; and it emits
    'leaveGame' on the socket only if moreover that request succeeded. *)
Theorem handleLeaveGame_always_navigates (user : User) (s : HookState) (leave_ok : bool) :
  last (handleLeaveGame user s leave_ok) = Some (Navigate "/games")
  ∧ apply_actions s (handleLeaveGame user s leave_ok) = s
  ∧ (∀ id u, Call_leaveGame id u ∈ handleLeaveGame user s leave_ok ↔
             st_joinedGameID s = Some id ∧ id ≠ "" ∧ u = username user
             ∧ ∀ g, st_gameState s = Some g → status (state g) ≠ OVER)
  ∧ (∀ ev arg, SocketEmit ev arg ∈ handleLeaveGame user s leave_ok ↔
               ev = "leaveGame" ∧ leave_ok = true
               ∧ Call_leaveGame arg (username user) ∈ handleLeaveGame user s leave_ok).
Proof.
  assert (Hover : not_over (st_gameState s) = true
                  ↔ ∀ g, st_gameState s = Some g → status (state g) ≠ OVER).
  { unfold not_over. destruct (st_gameState s) as [g|].
    - rewrite negb_true_iff, bool_decide_eq_false. split.
      + intros H g' [= <-]. exact H.
      + intros H. apply H. reflexivity.
    - split; [intros _ g H; discriminate H | reflexivity]. }
  assert (Hjoined : JS.truthy_opt (st_joinedGameID s) = true
                    ↔ ∃ id, st_joinedGameID s = Some id ∧ id ≠ "").
  { unfold JS.truthy_opt, JS.truthy. destruct (st_joinedGameID s) as [id|].
    - rewrite negb_true_iff, String.eqb_neq. split.
      + intros H. exists id. split; [reflexivity | exact H].
      + intros (id' & [= <-] & H). exact H.
    - split; [discriminate | intros (id' & H & _); discriminate H]. }
  unfold handleLeaveGame.
  destruct (JS.truthy_opt (st_joinedGameID s)) eqn:Hj; cbn [andb].
  - destruct (proj1 Hjoined eq_refl) as (id & Hid & Hne). rewrite Hid. cbn [default].
    destruct (not_over (st_gameState s)) eqn:Hno.
    + pose proof (proj1 Hover eq_refl) as Hg.
      destruct leave_ok; cbn; (split; [reflexivity|]); (split; [reflexivity|]);
        split; members.
    + assert (Hg : ¬ ∀ g, st_gameState s = Some g → status (state g) ≠ OVER).
      { intros H. apply Hover in H. discriminate H. }
      cbn. (split; [reflexivity|]); (split; [reflexivity|]).
      split; members.
  - assert (Hnone : ¬ ∃ id, st_joinedGameID s = Some id ∧ id ≠ "").
    { intros H. apply Hjoined in H. discriminate H. }
    cbn. (split; [reflexivity|]); (split; [reflexivity|]).
    split; members.
Qed.

Lemma handleLeaveGame_always_navigates_witness :
  Call_leaveGame "g1" "alice" ∈ handleLeaveGame Sample.alice Sample.idle false
  ∧ ¬ SocketEmit "leaveGame" "g1" ∈ handleLeaveGame Sample.alice Sample.idle false.
Proof.
  destruct (handleLeaveGame_always_navigates Sample.alice Sample.idle false)
    as (_ & _ & Hcall & Hemit).
  split.
  - apply Hcall. split; [reflexivity|]. split; [discriminate|]. split; [reflexivity|].
    intros g [= <-]. discriminate.
  - intros H. apply Hemit in H as (_ & H & _). discriminate H.
Defined.

(** X15: after a successful join, whatever socket events arrive, the hook
    leaves the game it joined.  When the identifier the server returned
    at the join is not empty and the shown game is not over, the leave
    request and the 'leaveGame' emission carry that identifier, the one
    'joinGame' was emitted with, and not the identifier asked for; the
    emission is left out when the request fails.  When that identifier is
    empty, or the shown game is over, leaving only navigates.  A join
    request that fails sets no state. *)
Theorem leave_matches_join
    (user : User) (id : string) (joinedGame : GameInstance)
    (evs : list SocketEvent) (leave_ok : bool) (s : HookState) :
  let s1 := apply_actions s (handleJoinGame user id (Some joinedGame)) in
  let s2 := on_events user s1 evs in
  st_gameState s1 = Some joinedGame
  ∧ st_joinedGameID s2 = Some (gameID joinedGame)
  ∧ SocketEmit "joinGame" (gameID joinedGame) ∈ handleJoinGame user id (Some joinedGame)
  ∧ (gameID joinedGame ≠ "" → not_over (st_gameState s2) = true →
     handleLeaveGame user s2 true
     = [Call_leaveGame (gameID joinedGame) (username user);
        SocketEmit "leaveGame" (gameID joinedGame); Navigate "/games"]
     ∧ handleLeaveGame user s2 false
       = [Call_leaveGame (gameID joinedGame) (username user);
          ConsoleError "Error leaving game:"; Navigate "/games"])
  ∧ (gameID joinedGame = "" → handleLeaveGame user s2 leave_ok = [Navigate "/games"])
  ∧ (not_over (st_gameState s2) = false →
     handleLeaveGame user s2 leave_ok = [Navigate "/games"])
  ∧ apply_actions s (handleJoinGame user id None) = s.
Proof.
  cbv zeta.
  set (s1 := apply_actions s (handleJoinGame user id (Some joinedGame))).
  assert (Hj : st_joinedGameID (on_events user s1 evs) = Some (gameID joinedGame))
    by (rewrite on_events_joinedGameID; reflexivity).
  split; [reflexivity|]. split; [exact Hj|]. split.
  { cbn. apply list_elem_of_further, list_elem_of_further, list_elem_of_further,
      list_elem_of_here. }
  split; [|split; [|split; [|reflexivity]]].
  - intros Hne Hno.
    assert (Ht : JS.truthy_opt (st_joinedGameID (on_events user s1 evs)) = true).
    { rewrite Hj. unfold JS.truthy_opt, JS.truthy.
      apply negb_true_iff, String.eqb_neq, Hne. }
    unfold handleLeaveGame. rewrite Ht, Hno, Hj. split; reflexivity.
  - intros He. unfold handleLeaveGame. rewrite Hj, He. reflexivity.
  - intros Hno. unfold handleLeaveGame. rewrite Hno, andb_false_r. reflexivity.
Qed.

Lemma leave_matches_join_witness :
  handleLeaveGame Sample.alice
    (on_events Sample.alice
       (apply_actions Sample.idle (handleJoinGame Sample.alice "url-id" (Some Sample.fresh_game)))
       [gameError Sample.error_for_bob]) true
  = [Call_leaveGame "g1" "alice"; SocketEmit "leaveGame" "g1"; Navigate "/games"]
  ∧ handleLeaveGame Sample.alice
      (on_events Sample.alice
         (apply_actions Sample.idle
            (handleJoinGame Sample.alice "url-id" (Some Sample.unnamed_game)))
         []) true
    = [Navigate "/games"].
Proof.
  destruct (leave_matches_join Sample.alice "url-id" Sample.fresh_game
              [gameError Sample.error_for_bob] true Sample.idle) as (_ & _ & _ & H & _).
  destruct (leave_matches_join Sample.alice "url-id" Sample.unnamed_game
              [] true Sample.idle) as (_ & _ & _ & _ & Hempty & _).
  split.
  - apply H; [discriminate | reflexivity].
  - apply Hempty. reflexivity.
Defined.

End GamePageExtras.

(* ===================================================================== *)
(** * Properties of the direct message page                               *)
(* ===================================================================== *)

Section DirectMessageExtras.
Import useDirectMessage.

(** Cutting a text into pieces loses nothing. *)
Lemma white_space_first_append (s w r : string) :
  JS.white_space_first s = Some (w, r) →
  s = (w ++ r)%string ∧ (String.length r < String.length s)%nat.
Proof.
  unfold JS.white_space_first.
  destruct s as [|c1 r1]; [discriminate|].
  destruct (JS.is_space c1); [intros [= <- <-]; cbn; split; [reflexivity | lia]|].
  destruct r1 as [|c2 r2]; [discriminate|].
  destruct (JS.is_byte 194 c1 && JS.is_byte 160 c2);
    [intros [= <- <-]; cbn; split; [reflexivity | lia]|].
  destruct r2 as [|c3 r3]; [discriminate|].
  destruct (JS.white_space_3 c1 c2 c3); [|discriminate].
  intros [= <- <-]. cbn. split; [reflexivity | lia].
Qed.

Lemma concat_cons_empty (x : string) (xs : list string) :
  String.concat "" (x :: xs) = (x ++ String.concat "" xs)%string.
Proof.
  destruct xs as [|y ys]; cbn; [|reflexivity].
  induction x as [|c x IH]; [reflexivity|].
  change (String c x = String c (x ++ "")%string). f_equal. exact IH.
Qed.

Lemma pieces_join (fuel : nat) (s : string) :
  (String.length s ≤ fuel)%nat → JS.join_pieces (JS.pieces fuel s) = s.
Proof.
  revert s. induction fuel as [|fuel IH]; intros s Hlen.
  - destruct s; [reflexivity | cbn in Hlen; lia].
  - destruct s as [|c r]; [reflexivity|]. cbn [JS.pieces].
    destruct (JS.white_space_first (String c r)) as [[w r']|] eqn:E.
    + apply white_space_first_append in E as [Hs Hl].
      unfold JS.join_pieces in *. cbn [fmap list_fmap snd].
      rewrite concat_cons_empty, IH; [symmetry; exact Hs | cbn in Hl, Hlen; lia].
    + unfold JS.join_pieces in *. cbn [fmap list_fmap snd].
      rewrite concat_cons_empty, IH; [reflexivity | cbn in Hlen; lia].
Qed.

Lemma pieces_not_empty (fuel : nat) (s : string) (p : bool * string) :
  p ∈ JS.pieces fuel s → snd p ≠ "".
Proof.
  revert s. induction fuel as [|fuel IH]; intros s Hin; [inversion Hin|].
  destruct s as [|c r]; [inversion Hin|]. cbn [JS.pieces] in Hin.
  destruct (JS.white_space_first (String c r)) as [[w r']|] eqn:E.
  - apply elem_of_cons in Hin as [-> | Hin]; [|exact (IH _ Hin)].
    cbn. apply white_space_first_append in E as [Hs Hl].
    intros ->. change (String c r = r') in Hs. rewrite <- Hs in Hl. lia.
  - apply elem_of_cons in Hin as [-> | Hin]; [discriminate | exact (IH _ Hin)].
Qed.

Lemma drop_white_start_nil (ps : list (bool * string)) :
  JS.drop_white_start ps = [] ↔ forallb fst ps = true.
Proof.
  induction ps as [|[[] w] ps IH]; cbn; [tauto | exact IH | split; discriminate].
Qed.

Lemma drop_white_start_head (ps : list (bool * string)) :
  match JS.drop_white_start ps with
  | p :: _ => fst p = false ∧ p ∈ ps
  | [] => True
  end.
Proof.
  induction ps as [|[[] w] ps IH]; cbn; [exact I | |].
  - destruct (JS.drop_white_start ps) as [|p t]; [exact I|].
    destruct IH as [Hf Hin]. split; [exact Hf | apply list_elem_of_further, Hin].
  - split; [reflexivity | apply list_elem_of_here].
Qed.

Lemma drop_white_end_nil (ps : list (bool * string)) :
  JS.drop_white_end ps = [] ↔ forallb fst ps = true.
Proof.
  induction ps as [|p ps IH]; cbn; [tauto|].
  destruct (JS.drop_white_end ps) as [|q t] eqn:E.
  - destruct (fst p); cbn.
    + split; [intros _; apply IH; reflexivity | reflexivity].
    + split; discriminate.
  - split; [discriminate|]. intros H. apply andb_true_iff in H as [_ H].
    apply IH in H. discriminate H.
Qed.

Lemma drop_white_end_head (ps : list (bool * string)) :
  match JS.drop_white_end ps with
  | p :: _ => p ∈ ps
  | [] => True
  end.
Proof.
  induction ps as [|p ps IH]; cbn; [exact I|].
  destruct (JS.drop_white_end ps) as [|q t].
  - destruct (fst p); [exact I | apply list_elem_of_here].
  - apply list_elem_of_here.
Qed.

(** [trim] leaves nothing exactly of the texts of white space. *)
Lemma trim_empty (s : string) : JS.trim s = "" ↔ JS.all_white_space s = true.
Proof.
  unfold JS.trim, JS.all_white_space.
  set (ps := JS.pieces (String.length s) s).
  split.
  - intros H.
    destruct (JS.drop_white_start ps) as [|p t] eqn:E;
      [apply drop_white_start_nil; exact E|].
    exfalso.
    pose proof (drop_white_start_head ps) as Hh. rewrite E in Hh.
    destruct Hh as [Hf Hin].
    destruct (JS.drop_white_end (p :: t)) as [|q u] eqn:E2.
    + apply drop_white_end_nil in E2. cbn in E2. rewrite Hf in E2. discriminate E2.
    + pose proof (drop_white_end_head (p :: t)) as Hq. rewrite E2 in Hq.
      assert (Hqin : q ∈ ps).
      { apply elem_of_cons in Hq as [-> | Hq]; [exact Hin|].
        assert (Hsub : ∀ l x, x ∈ JS.drop_white_start l → x ∈ l).
        { clear. induction l as [|[[] w] l IH]; cbn; intros x Hx; [exact Hx | |exact Hx].
          apply list_elem_of_further, IH, Hx. }
        apply Hsub. rewrite E. apply list_elem_of_further, Hq. }
      apply pieces_not_empty in Hqin.
      unfold JS.join_pieces in H. cbn [fmap list_fmap] in H.
      rewrite concat_cons_empty in H.
      destruct (snd q); [contradiction | discriminate H].
  - intros H. apply drop_white_start_nil in H. rewrite H. reflexivity.
Qed.

(** X16: [handleSendMessage] sends nothing when the text is only white
    space (any white space [trim] removes, such as a no-break space) or
    no chat with an identifier is selected: it then only sets the
    error 'Message cannot be empty' and keeps the text.  Otherwise it
    sends the text as typed (not trimmed) in the user's name to the
    selected chat; when the request succeeds the answer becomes the
    selected chat, the error is cleared and the text emptied, and when it
    fails the state stays as it was. *)
Theorem handleSendMessage_needs_text_and_chat
    (user : User) (s : HookState) (now : Z) (response : option Chat) :
  let acts := handleSendMessage user s now response in
  (JS.all_white_space (newMessage s) = true ∨ JS.truthy_opt (selectedChat s ≫= chat_id) = false →
     acts = [SetError (Some "Message cannot be empty")]
     ∧ newMessage (apply_actions s acts) = newMessage s
     ∧ selectedChat (apply_actions s acts) = selectedChat s)
  ∧ (∀ id, JS.all_white_space (newMessage s) = false →
           selectedChat s ≫= chat_id = Some id → id ≠ "" →
           (∃ rest, acts = Call_sendMessage
                             {| msg := newMessage s; msgFrom := username user;
                                msgDateTime := now |} id :: rest)
           ∧ (∀ c, response = Some c →
                   newMessage (apply_actions s acts) = ""
                   ∧ error (apply_actions s acts) = None
                   ∧ selectedChat (apply_actions s acts) = Some c)
           ∧ (response = None → apply_actions s acts = s)).
Proof.
  cbv zeta. unfold handleSendMessage.
  assert (Htrim : JS.truthy (JS.trim (newMessage s)) = negb (JS.all_white_space (newMessage s))).
  { unfold JS.truthy. f_equal.
    destruct (JS.all_white_space (newMessage s)) eqn:E.
    - apply trim_empty in E. rewrite E. reflexivity.
    - apply String.eqb_neq. intros H. apply trim_empty in H. congruence. }
  rewrite Htrim. split.
  - intros [H | H]; rewrite H; cbn [negb andb]; rewrite ?andb_false_r;
      repeat split; destruct s; reflexivity.
  - intros id Hsp Hid Hne. rewrite Hsp, Hid. cbn [negb andb default].
    assert (Ht : JS.truthy_opt (Some id) = true).
    { unfold JS.truthy_opt, JS.truthy. apply negb_true_iff, String.eqb_neq, Hne. }
    rewrite Ht. split; [eexists; reflexivity|]. split.
    + intros c ->. repeat split.
    + intros ->. destruct s; reflexivity.
Qed.

Lemma handleSendMessage_needs_text_and_chat_witness :
  handleSendMessage Sample.alice (Sample.dm_state "  ") 7 None
  = [SetError (Some "Message cannot be empty")]
  ∧ handleSendMessage Sample.alice (Sample.dm_state (Sample.nbsp +:+ " " +:+ Sample.nbsp)) 7 None
    = [SetError (Some "Message cannot be empty")]
  ∧ ∃ rest, handleSendMessage Sample.alice (Sample.dm_state " hi ") 7 None
            = Call_sendMessage {| msg := " hi "; msgFrom := "alice"; msgDateTime := 7 |} "c1"
              :: rest.
Proof.
  split; [|split].
  - destruct (handleSendMessage_needs_text_and_chat Sample.alice (Sample.dm_state "  ") 7 None)
      as [H _].
    apply H. left. reflexivity.
  - destruct (handleSendMessage_needs_text_and_chat Sample.alice
                (Sample.dm_state (Sample.nbsp +:+ " " +:+ Sample.nbsp)) 7 None) as [H _].
    apply H. left. reflexivity.
  - destruct (handleSendMessage_needs_text_and_chat Sample.alice (Sample.dm_state " hi ") 7 None)
      as [_ H].
    destruct (H "c1") as [Hsend _]; [reflexivity | reflexivity | discriminate |].
    exact Hsend.
Defined.

Lemma handleChatUpdate_step (user : User) (s : HookState) (u : ChatUpdatePayload) :
  let s' := apply_actions s (handleChatUpdate user u) in
  chats s' = (created_for user [u] ++ chats s)%list
  ∧ newMessage s' = newMessage s ∧ chatToCreate s' = chatToCreate s
  ∧ showCreatePanel s' = showCreatePanel s.
Proof.
  cbv zeta. unfold handleChatUpdate, created_for. cbn [List.filter].
  destruct (String.eqb (type u) "created"); cbn [andb].
  - destruct (includes (username user) (chat u)); repeat split.
  - destruct (String.eqb (type u) "newMessage"); repeat split.
Qed.

Lemma on_hook_event_fields (user : User) (s : HookState) (ev : HookEvent) :
  newMessage (on_hook_event user s ev) = newMessage s
  ∧ chatToCreate (on_hook_event user s ev) = chatToCreate s
  ∧ showCreatePanel (on_hook_event user s ev) = showCreatePanel s.
Proof.
  destruct ev as [u | cs]; [|repeat split].
  destruct (handleChatUpdate_step user s u) as (_ & Hn & Ht & Hp).
  cbn. repeat split; assumption.
Qed.

Lemma on_hook_events_updates (user : User) (evs : list HookEvent) (s : HookState) :
  forallb is_chatUpdate evs = true →
  chats (on_hook_events user s evs)
  = (rev (created_for user (updates_of evs)) ++ chats s)%list.
Proof.
  revert s. induction evs as [|ev evs IH]; intros s Hall; [reflexivity|].
  cbn in Hall. apply andb_true_iff in Hall as [Hev Hall].
  destruct ev as [u | cs]; [|discriminate Hev].
  unfold on_hook_events in *. cbn [foldl]. rewrite (IH _ Hall).
  cbn [on_hook_event on_chatUpdate fst].
  destruct (handleChatUpdate_step user s u) as (Hc & _). rewrite Hc.
  unfold updates_of, created_for. cbn [omap list_omap List.filter].
  destruct (String.eqb (type u) "created" && includes (username user) (chat u));
    cbn [fmap list_fmap rev app]; [|reflexivity].
  rewrite <- app_assoc. reflexivity.
Qed.

(** X17: the state of the hook changes with the [chatUpdate] events and
    with the answers to the chat list requests, in whatever order they
    come.  Over any such sequence the chat list is the last answer, or
    the initial list when there was none, with the chats of the later
    'created' events that include the user put in front, the newest
    first; so when the initial list and every answer hold only chats that
    include the user, so does the list.  A [chatUpdate] starts a chat list
    request exactly when it is a 'newMessage' that changes the identifier
    of the selected chat.  None of these events touches the typed text,
    the chosen partner or the panel. *)
Theorem chat_updates_add_only_own_chats
    (user : User) (s : HookState) (evs : list HookEvent) :
  let s' := on_hook_events user s evs in
  (forallb is_chatUpdate evs = true →
     chats s' = (rev (created_for user (updates_of evs)) ++ chats s)%list)
  ∧ (∀ before userChats after,
       evs = (before ++ chatsFetched userChats :: after)%list →
       forallb is_chatUpdate after = true →
       chats s' = (rev (created_for user (updates_of after)) ++ userChats)%list)
  ∧ (Forall (λ c, username user ∈ participants c) (chats s) →
     Forall (fetched_for user) evs →
     Forall (λ c, username user ∈ participants c) (chats s'))
  ∧ newMessage s' = newMessage s ∧ chatToCreate s' = chatToCreate s
  ∧ showCreatePanel s' = showCreatePanel s
  ∧ (∀ update,
       Call_getChatsByUser (username user) ∈ snd (on_chatUpdate user s update)
       ↔ type update = "newMessage"
         ∧ selectedChat s ≫= chat_id ≠ chat_id (chat update)).
Proof.
  cbv zeta. split; [apply on_hook_events_updates|].
  split; [|split; [|split; [|split; [|split]]]].
  - intros before cs after -> Hall.
    unfold on_hook_events. rewrite foldl_app. cbn [foldl].
    exact (on_hook_events_updates user after _ Hall).
  - revert s. induction evs as [|ev evs IH]; intros s Hs Hevs; [exact Hs|].
    apply Forall_cons in Hevs as [Hev Hevs].
    unfold on_hook_events in *. cbn [foldl]. apply IH; [|exact Hevs].
    destruct ev as [u | cs]; [|exact Hev].
    cbn [on_hook_event on_chatUpdate fst].
    destruct (handleChatUpdate_step user s u) as (Hc & _). rewrite Hc.
    apply Forall_app. split; [|exact Hs].
    unfold created_for. cbn [List.filter].
    destruct (String.eqb (type u) "created" && includes (username user) (chat u)) eqn:E;
      cbn; [|constructor].
    constructor; [|constructor].
    apply andb_true_iff in E as [_ E]. apply bool_decide_eq_true in E. exact E.
  - revert s. induction evs as [|ev evs IH]; intros s; [reflexivity|].
    unfold on_hook_events in *. cbn [foldl]. rewrite IH.
    apply on_hook_event_fields.
  - revert s. induction evs as [|ev evs IH]; intros s; [reflexivity|].
    unfold on_hook_events in *. cbn [foldl]. rewrite IH.
    apply on_hook_event_fields.
  - revert s. induction evs as [|ev evs IH]; intros s; [reflexivity|].
    unfold on_hook_events in *. cbn [foldl]. rewrite IH.
    apply on_hook_event_fields.
  - intros u. unfold on_chatUpdate, handleChatUpdate, effect_reruns, cleanup.
    destruct (String.eqb_spec (type u) "created") as [Hc | Hc].
    + assert (Hno : ∀ acts, acts = (if includes (username user) (chat u)
                                    then [PrependChat (chat u)] else []) →
                selectedChat (apply_actions s acts) = selectedChat s).
      { intros acts ->. destruct (includes _ _); reflexivity. }
      rewrite (Hno _ eq_refl). rewrite bool_decide_eq_true_2 by reflexivity.
      cbn [negb snd]. rewrite app_nil_r. split.
      * intros H. destruct (includes _ _);
          [apply list_elem_of_singleton in H; discriminate H | inversion H].
      * intros [Hn _]. rewrite Hc in Hn. discriminate Hn.
    + destruct (String.eqb_spec (type u) "newMessage") as [Hn | Hn].
      * cbn [apply_actions foldl apply_action selectedChat snd mbind option_bind].
        destruct (bool_decide_reflect (selectedChat s ≫= chat_id = chat_id (chat u)))
          as [He | He]; cbn [negb].
        -- rewrite app_nil_r. split.
           ++ intros H. apply list_elem_of_singleton in H. discriminate H.
           ++ intros [_ H]. contradiction.
        -- split; [intros _; split; assumption|].
           intros _. apply list_elem_of_further, list_elem_of_further, list_elem_of_here.
      * cbn [apply_actions foldl apply_action selectedChat snd].
        rewrite bool_decide_eq_true_2 by reflexivity. cbn [negb]. rewrite app_nil_r.
        split.
        -- intros H. apply list_elem_of_singleton in H. discriminate H.
        -- intros [H _]. contradiction.
Qed.

Lemma chat_updates_add_only_own_chats_witness :
  Forall (λ c, "alice" ∈ participants c)
    (chats (on_hook_events Sample.alice (Sample.dm_state "hi")
              [chatUpdate {| chat := Sample.dm_chat "c7" ["bob"; "carol"]; type := "created" |};
               chatsFetched [Sample.dm_chat "c1" ["alice"; "bob"]];
               chatUpdate {| chat := Sample.dm_chat "c8" ["carol"; "alice"];
                             type := "created" |}]))
  ∧ chats (on_hook_events Sample.alice (Sample.dm_state "hi")
             [chatUpdate {| chat := Sample.dm_chat "c7" ["alice"]; type := "created" |};
              chatsFetched [Sample.dm_chat "c1" ["alice"; "bob"]];
              chatUpdate {| chat := Sample.dm_chat "c8" ["carol"; "alice"];
                            type := "created" |}])
    = [Sample.dm_chat "c8" ["carol"; "alice"]; Sample.dm_chat "c1" ["alice"; "bob"]]
  ∧ Call_getChatsByUser "alice"
    ∈ snd (on_chatUpdate Sample.alice (Sample.dm_state "hi")
             {| chat := Sample.dm_chat "c7" ["alice"]; type := "newMessage" |}).
Proof.
  split; [|split].
  - apply (chat_updates_add_only_own_chats Sample.alice (Sample.dm_state "hi")).
    + constructor; [|constructor]. cbn. apply list_elem_of_here.
    + constructor; [exact I|]. constructor; [|constructor; [exact I | constructor]].
      constructor; [|constructor]. cbn. apply list_elem_of_here.
  - destruct (chat_updates_add_only_own_chats Sample.alice (Sample.dm_state "hi")
                [chatUpdate {| chat := Sample.dm_chat "c7" ["alice"]; type := "created" |};
                 chatsFetched [Sample.dm_chat "c1" ["alice"; "bob"]];
                 chatUpdate {| chat := Sample.dm_chat "c8" ["carol"; "alice"];
                               type := "created" |}]) as (_ & Hlast & _).
    exact (Hlast [chatUpdate {| chat := Sample.dm_chat "c7" ["alice"]; type := "created" |}]
             _ [chatUpdate {| chat := Sample.dm_chat "c8" ["carol"; "alice"];
                              type := "created" |}] eq_refl eq_refl).
  - destruct (chat_updates_add_only_own_chats Sample.alice (Sample.dm_state "hi") [])
      as (_ & _ & _ & _ & _ & _ & Hreq).
    apply Hreq. split; [reflexivity | discriminate].
Defined.

(** X18: choosing a user whose name is not empty and then creating a
    chat asks the service for a chat between the current user, named
    first, and the chosen user (also when that is the current user:
    nothing compares the two names); when the answer arrives it becomes
    the selected chat, its room is joined and the panel is closed, and
    when the request fails the state stays as it was.  With no user
    chosen, or a chosen user whose name is empty, nothing is requested and
    only the error 'Please select a user to chat with' is set. *)
Theorem create_chat_after_user_select
    (user selected : User) (s : HookState) (response : option Chat) :
  let s1 := apply_actions s (handleUserSelect selected) in
  let acts := handleCreateChat user s1 response in
  chatToCreate s1 = username selected
  ∧ (username selected ≠ "" →
     (∃ rest, acts = Call_createChat [username user; username selected] :: rest)
     ∧ (∀ c, response = Some c →
             acts = [Call_createChat [username user; username selected];
                     SetSelectedChat c;
                     SocketEmit "joinChat" (JS.String_of (chat_id c));
                     SetShowCreatePanel false]
             ∧ selectedChat (apply_actions s1 acts) = Some c
             ∧ showCreatePanel (apply_actions s1 acts) = false)
     ∧ (response = None →
        acts = [Call_createChat [username user; username selected]]
        ∧ apply_actions s1 acts = s1))
  ∧ (username selected = "" →
     acts = [SetError (Some "Please select a user to chat with")])
  ∧ (chatToCreate s = "" →
     handleCreateChat user s response = [SetError (Some "Please select a user to chat with")]).
Proof.
  cbv zeta. split; [reflexivity|]. split; [|split].
  - intros Hne. unfold handleCreateChat. cbn [apply_actions handleUserSelect foldl
      apply_action chatToCreate].
    assert (Ht : JS.truthy (username selected) = true)
      by (apply negb_true_iff, String.eqb_neq, Hne).
    rewrite Ht. cbn [negb]. split; [eexists; reflexivity|]. split.
    + intros c ->. repeat split.
    + intros ->. split; reflexivity.
  - intros He. unfold handleCreateChat. cbn [apply_actions handleUserSelect foldl
      apply_action chatToCreate]. rewrite He. reflexivity.
  - intros He. unfold handleCreateChat. rewrite He. reflexivity.
Qed.

Lemma create_chat_after_user_select_witness :
  (∃ rest, handleCreateChat Sample.alice
             (apply_actions (Sample.dm_state "") (handleUserSelect Sample.bob)) None
           = Call_createChat ["alice"; "bob"] :: rest)
  ∧ handleCreateChat Sample.alice
      (apply_actions (Sample.dm_state "")
         (handleUserSelect {| user_id := "u3"; username := "" |})) None
    = [SetError (Some "Please select a user to chat with")]
  ∧ handleCreateChat Sample.alice (Sample.dm_state "") None
    = [SetError (Some "Please select a user to chat with")].
Proof.
  destruct (create_chat_after_user_select Sample.alice Sample.bob (Sample.dm_state "") None)
    as (_ & Hsel & _ & Hnone).
  destruct (create_chat_after_user_select Sample.alice {| user_id := "u3"; username := "" |}
              (Sample.dm_state "") None) as (_ & _ & Hempty & _).
  split; [|split].
  - destruct Hsel as (Hreq & _); [discriminate | exact Hreq].
  - apply Hempty. reflexivity.
  - apply Hnone. reflexivity.
Defined.

(** X19: the room left at clean-up is the room of the selected chat.
    After a chat was selected and the service answered with the chat of
    that identifier, 'joinChat' was emitted for the identifier and the
    clean-up emits 'leaveChat' for the same one.  Selecting without an
    identifier requests nothing and joins no room; and with no chat
    selected the clean-up still emits 'leaveChat', for the text
    'undefined'. *)
Theorem chat_room_left_is_room_joined
    (chatID : string) (c : Chat) (s : HookState) (response : option Chat) :
  (chatID ≠ "" → chat_id c = Some chatID →
     SocketEmit "joinChat" chatID ∈ handleChatSelect (Some chatID) (Some c)
     ∧ cleanup (apply_actions s (handleChatSelect (Some chatID) (Some c)))
       = [SocketEmit "leaveChat" chatID])
  ∧ handleChatSelect None response = [SetError (Some "Invalid chat ID")]
  ∧ handleChatSelect (Some "") response = [SetError (Some "Invalid chat ID")]
  ∧ (selectedChat s = None → cleanup s = [SocketEmit "leaveChat" "undefined"]).
Proof.
  split; [|split; [reflexivity|]; split; [reflexivity|]].
  - intros Hne Hid. unfold handleChatSelect.
    assert (Ht : JS.truthy_opt (Some chatID) = true)
      by (apply negb_true_iff, String.eqb_neq, Hne).
    rewrite Ht. cbn [negb]. split.
    + apply list_elem_of_further, list_elem_of_further, list_elem_of_here.
    + unfold cleanup. cbn. rewrite Hid. reflexivity.
  - intros Hn. unfold cleanup. rewrite Hn. reflexivity.
Qed.

Lemma chat_room_left_is_room_joined_witness :
  cleanup (apply_actions (Sample.dm_state "")
             (handleChatSelect (Some "c7") (Some (Sample.dm_chat "c7" ["alice"]))))
  = [SocketEmit "leaveChat" "c7"].
Proof.
  destruct (chat_room_left_is_room_joined "c7" (Sample.dm_chat "c7" ["alice"])
              (Sample.dm_state "") None) as [H _].
  apply H; [discriminate | reflexivity].
Defined.

End DirectMessageExtras.
